(** * pkg/scraper/config.go: scraper definitions, loading, capability
      projection and dispatch.

    A shallow embedding of the Go source.  Go strings are byte strings
    ([string]), [int] results are [Z], pointers that may be nil are [option],
    slices are lists, a panic is an explicit outcome and the effects of the
    external scrape handlers are threaded through an explicit [World]. *)

From Stdlib Require Import String Ascii List Bool ZArith Lia.
Import ListNotations.

Local Open Scope string_scope.
Local Open Scope Z_scope.
Local Open Scope list_scope.

Set Implicit Arguments.

(** ** The Go runtime and standard library pieces the file relies on *)

(** What a run-time panic was about. *)
Inductive panic : Type :=
| NilDereference
| SliceBoundsOutOfRange.

(** A Go call either returns or panics. *)
Inductive outcome (A : Type) : Type :=
| Done (a : A)
| Panicked (p : panic).

Arguments Done {A} a.
Arguments Panicked {A} p.

Definition bind {A B : Type} (m : outcome A) (k : A -> outcome B) : outcome B :=
  match m with
  | Done a => k a
  | Panicked p => Panicked p
  end.

Notation "x <- m ;; k" := (bind m (fun x => k))
  (at level 61, m at next level, right associativity).

Module strings.

(** [strings.HasPrefix(s, prefix)]. *)
Fixpoint HasPrefix (s prefix : string) {struct prefix} : bool :=
  match prefix, s with
  | EmptyString, _ => true
  | String _ _, EmptyString => false
  | String p prefix', String a s' => Ascii.eqb a p && HasPrefix s' prefix'
  end.

(** [strings.Contains(s, substr)]: [substr] occurs in [s] as a run of
    consecutive bytes. *)
Fixpoint Contains (s substr : string) : bool :=
  HasPrefix s substr ||
  match s with
  | EmptyString => false
  | String _ s' => Contains s' substr
  end.

(** Left-to-right scan behind [LastIndex]: [pos] is the offset of [s] in the
    whole string and [found] the last match seen so far. *)
Fixpoint lastIndexFrom (s substr : string) (pos found : Z) : Z :=
  let found' := if HasPrefix s substr then pos else found in
  match s with
  | EmptyString => found'
  | String _ s' => lastIndexFrom s' substr (pos + 1) found'
  end.

(** [strings.LastIndex(s, substr)]: the offset of the last occurrence of
    [substr] in [s], or [-1]. *)
Definition LastIndex (s substr : string) : Z :=
  lastIndexFrom s substr 0 (-1).

End strings.

(** The slice expression [s[:hi]] on a string: it panics unless
    [0 <= hi <= len(s)]. *)
Definition sliceTo (s : string) (hi : Z) : outcome string :=
  if (hi <? 0) || (Z.of_nat (String.length s) <? hi)
  then Panicked SliceBoundsOutOfRange
  else Done (String.substring 0 (Z.to_nat hi) s).

Module filepath.

Definition isPathSeparator (c : ascii) : bool := Ascii.eqb c "/"%char.

Fixpoint dropWhile (p : ascii -> bool) (l : list ascii) : list ascii :=
  match l with
  | [] => []
  | c :: l' => if p c then dropWhile p l' else l
  end.

Fixpoint takeWhile (p : ascii -> bool) (l : list ascii) : list ascii :=
  match l with
  | [] => []
  | c :: l' => if p c then c :: takeWhile p l' else []
  end.

(** [filepath.Base(path)] with [/] as the separator: the last element of
    the path, trailing separators removed first; ["."] for the empty path
    and ["/"] for a path of separators only. *)
Definition Base (path : string) : string :=
  if (path =? "")%string then "."
  else
    let stripped := dropWhile isPathSeparator (rev (list_ascii_of_string path)) in
    let last := rev (takeWhile (fun c => negb (isPathSeparator c)) stripped) in
    match last with
    | [] => "/"
    | _ => string_of_list_ascii last
    end.

End filepath.

(** ** External collaborators *)

(** The value types of package [models] that the scrapers exchange, Go's
    [error], an open [*os.File], and the outside world the handlers act on
    (they run scripts and fetch pages). *)
Class Externals : Type := {
  ScrapedPerformer : Type;
  ScrapedPerformerInput : Type;
  ScrapedScene : Type;
  SceneUpdateInput : Type;
  error : Type;
  File : Type;
  World : Type
}.

(** Modelled from the spec: the generated [models.ScrapeType] enumeration, of
    which this file uses three constants (§3, supported modes). *)
Inductive ScrapeType : Type :=
| ScrapeTypeName
| ScrapeTypeFragment
| ScrapeTypeURL.

(** Modelled from the spec: [models.ScraperSpec], one capability group of the
    Capability Descriptor (§3): supported modes and claimed urls. *)
Record ScraperSpec : Type := {
  Urls : list string;
  SupportedScrapes : list ScrapeType
}.

(** Modelled from the spec: [models.Scraper], the Capability Descriptor (§3);
    a capability group that is absent is a nil pointer. *)
Record Scraper : Type := {
  Scraper_ID : string;
  Scraper_Name : string;
  Performer : option ScraperSpec;
  Scene : option ScraperSpec
}.

(** ** Action kinds *)

Definition scraperAction : Type := string.

Definition scraperActionScript : scraperAction := "script".

Definition allScraperAction : list scraperAction := [scraperActionScript].

Definition IsValid (e : scraperAction) : bool :=
  if (e =? scraperActionScript)%string then true else false.

Record scraperTypeConfig : Type := {
  Action : scraperAction;
  Script : list string
}.

Record scrapeByURLConfig : Type := {
  byURL_scraperTypeConfig : scraperTypeConfig;
  URL : list string
}.

Fixpoint matchesURL_loop (urls : list string) (url : string) : bool :=
  match urls with
  | [] => false
  | thisURL :: rest =>
      if strings.Contains url thisURL then true else matchesURL_loop rest url
  end.

Definition matchesURL (c : scrapeByURLConfig) (url : string) : bool :=
  matchesURL_loop (URL c) url.

Section Config.

Context {X : Externals}.

(** A call into an external handler: it returns Go's [(value, err)] pair and
    leaves the world in a new state. *)
Definition call (A : Type) : Type := World -> (A * option error) * World.

(** ** Operation configs and their handlers *)

Definition scrapePerformerNamesFunc : Type :=
  scraperTypeConfig -> string -> call (option (list (option ScrapedPerformer))).

Record performerByNameConfig : Type := {
  performerByName_scraperTypeConfig : scraperTypeConfig;
  performerByName_performScrape : option scrapePerformerNamesFunc
}.

Definition scrapePerformerFragmentFunc : Type :=
  scraperTypeConfig -> ScrapedPerformerInput -> call (option ScrapedPerformer).

Record performerByFragmentConfig : Type := {
  performerByFragment_scraperTypeConfig : scraperTypeConfig;
  performerByFragment_performScrape : option scrapePerformerFragmentFunc
}.

Definition scrapePerformerByURLFunc : Type :=
  scraperTypeConfig -> string -> call (option ScrapedPerformer).

Record scrapePerformerByURLConfig : Type := {
  performerByURL_scrapeByURLConfig : scrapeByURLConfig;
  performerByURL_performScrape : option scrapePerformerByURLFunc
}.

Definition scrapeSceneFragmentFunc : Type :=
  scraperTypeConfig -> SceneUpdateInput -> call (option ScrapedScene).

Record sceneByFragmentConfig : Type := {
  sceneByFragment_scraperTypeConfig : scraperTypeConfig;
  sceneByFragment_performScrape : option scrapeSceneFragmentFunc
}.

Definition scrapeSceneByURLFunc : Type :=
  scraperTypeConfig -> string -> call (option ScrapedScene).

Record scrapeSceneByURLConfig : Type := {
  sceneByURL_scrapeByURLConfig : scrapeByURLConfig;
  sceneByURL_performScrape : option scrapeSceneByURLFunc
}.

(** The definition.  The two optional blocks are pointers, the two rule lists
    are slices of pointers: an element may be nil. *)
Record scraperConfig : Type := {
  ID : string;
  Name : string;
  PerformerByName : option performerByNameConfig;
  PerformerByFragment : option performerByFragmentConfig;
  PerformerByURL : list (option scrapePerformerByURLConfig);
  SceneByFragment : option sceneByFragmentConfig;
  SceneByURL : list (option scrapeSceneByURLConfig)
}.

(** The script-backed handlers, defined elsewhere in the package, and the two
    library calls of the loader: [os.Open] and the strict YAML decoding of the
    opened file into [ret], which is passed by address ([Decode(&ret)]), so
    the decoder hands back the pointer as well as its error. *)
Class Collaborators : Type := {
  scrapePerformerNamesScript : scrapePerformerNamesFunc;
  scrapePerformerFragmentScript : scrapePerformerFragmentFunc;
  scrapePerformerURLScript : scrapePerformerByURLFunc;
  scrapeSceneFragmentScript : scrapeSceneFragmentFunc;
  scrapeSceneURLScript : scrapeSceneByURLFunc;
  os_Open : string -> File + error;
  yaml_Decode : File -> option scraperConfig -> option scraperConfig * option error
}.

Context {K : Collaborators}.

(** ** Action resolver *)

Definition performerByNameConfig_resolveFn (c : performerByNameConfig)
  : performerByNameConfig :=
  if (Action (performerByName_scraperTypeConfig c) =? scraperActionScript)%string
  then {| performerByName_scraperTypeConfig := performerByName_scraperTypeConfig c;
          performerByName_performScrape := Some scrapePerformerNamesScript |}
  else c.

Definition performerByFragmentConfig_resolveFn (c : performerByFragmentConfig)
  : performerByFragmentConfig :=
  if (Action (performerByFragment_scraperTypeConfig c) =? scraperActionScript)%string
  then {| performerByFragment_scraperTypeConfig := performerByFragment_scraperTypeConfig c;
          performerByFragment_performScrape := Some scrapePerformerFragmentScript |}
  else c.

Definition scrapePerformerByURLConfig_resolveFn (c : scrapePerformerByURLConfig)
  : scrapePerformerByURLConfig :=
  if (Action (byURL_scraperTypeConfig (performerByURL_scrapeByURLConfig c))
      =? scraperActionScript)%string
  then {| performerByURL_scrapeByURLConfig := performerByURL_scrapeByURLConfig c;
          performerByURL_performScrape := Some scrapePerformerURLScript |}
  else c.

Definition sceneByFragmentConfig_resolveFn (c : sceneByFragmentConfig)
  : sceneByFragmentConfig :=
  if (Action (sceneByFragment_scraperTypeConfig c) =? scraperActionScript)%string
  then {| sceneByFragment_scraperTypeConfig := sceneByFragment_scraperTypeConfig c;
          sceneByFragment_performScrape := Some scrapeSceneFragmentScript |}
  else c.

Definition scrapeSceneByURLConfig_resolveFn (c : scrapeSceneByURLConfig)
  : scrapeSceneByURLConfig :=
  if (Action (byURL_scraperTypeConfig (sceneByURL_scrapeByURLConfig c))
      =? scraperActionScript)%string
  then {| sceneByURL_scrapeByURLConfig := sceneByURL_scrapeByURLConfig c;
          sceneByURL_performScrape := Some scrapeSceneURLScript |}
  else c.

(** ** Loader *)

(** [for _, s := range rules { s.resolveFn() }]: a nil element is
    dereferenced by [resolveFn] when it reads [c.Action]. *)
Fixpoint resolvePerformerByURL (rules : list (option scrapePerformerByURLConfig))
  : outcome (list (option scrapePerformerByURLConfig)) :=
  match rules with
  | [] => Done []
  | None :: _ => Panicked NilDereference
  | Some s :: rest =>
      rest' <- resolvePerformerByURL rest ;;
      Done (Some (scrapePerformerByURLConfig_resolveFn s) :: rest')
  end.

Fixpoint resolveSceneByURL (rules : list (option scrapeSceneByURLConfig))
  : outcome (list (option scrapeSceneByURLConfig)) :=
  match rules with
  | [] => Done []
  | None :: _ => Panicked NilDereference
  | Some s :: rest =>
      rest' <- resolveSceneByURL rest ;;
      Done (Some (scrapeSceneByURLConfig_resolveFn s) :: rest')
  end.

Definition initialiseConfigs (c : scraperConfig) : outcome scraperConfig :=
  let byName := option_map performerByNameConfig_resolveFn (PerformerByName c) in
  let byFragment :=
    option_map performerByFragmentConfig_resolveFn (PerformerByFragment c) in
  performerByURL <- resolvePerformerByURL (PerformerByURL c) ;;
  let sceneByFragment :=
    option_map sceneByFragmentConfig_resolveFn (SceneByFragment c) in
  sceneByURL <- resolveSceneByURL (SceneByURL c) ;;
  Done {| ID := ID c;
          Name := Name c;
          PerformerByName := byName;
          PerformerByFragment := byFragment;
          PerformerByURL := performerByURL;
          SceneByFragment := sceneByFragment;
          SceneByURL := sceneByURL |}.

(** [&scraperConfig{}]: the zero value the decoder starts from. *)
Definition zeroConfig : scraperConfig :=
  {| ID := "";
     Name := "";
     PerformerByName := None;
     PerformerByFragment := None;
     PerformerByURL := [];
     SceneByFragment := None;
     SceneByURL := [] |}.

Definition setID (c : scraperConfig) (id : string) : scraperConfig :=
  {| ID := id;
     Name := Name c;
     PerformerByName := PerformerByName c;
     PerformerByFragment := PerformerByFragment c;
     PerformerByURL := PerformerByURL c;
     SceneByFragment := SceneByFragment c;
     SceneByURL := SceneByURL c |}.

Definition loadScraperFromYAML (path : string)
  : outcome (option scraperConfig * option error) :=
  let ret := Some zeroConfig in
  match os_Open path with
  | inr err => Done (None, Some err)
  | inl file =>
      let (ret, err) := yaml_Decode file ret in
      match err with
      | Some err => Done (None, Some err)
      | None =>
          let id := filepath.Base path in
          id <- sliceTo id (strings.LastIndex id ".") ;;
          match ret with
          | None => Panicked NilDereference
          | Some c =>
              c <- initialiseConfigs (setID c id) ;;
              Done (Some c, None)
          end
      end
  end.

(** ** Capability projector *)

(** [for _, v := range rules { spec.Urls = append(spec.Urls, v.URL...) }]. *)
Fixpoint appendPerformerUrls (urls : list string)
  (rules : list (option scrapePerformerByURLConfig)) : outcome (list string) :=
  match rules with
  | [] => Done urls
  | None :: _ => Panicked NilDereference
  | Some v :: rest =>
      appendPerformerUrls (urls ++ URL (performerByURL_scrapeByURLConfig v)) rest
  end.

Fixpoint appendSceneUrls (urls : list string)
  (rules : list (option scrapeSceneByURLConfig)) : outcome (list string) :=
  match rules with
  | [] => Done urls
  | None :: _ => Panicked NilDereference
  | Some v :: rest =>
      appendSceneUrls (urls ++ URL (sceneByURL_scrapeByURLConfig v)) rest
  end.

(** The local [performer] of [toScraper], as it stands when the function
    tests [len(performer.SupportedScrapes) > 0]. *)
Definition performerSpec (c : scraperConfig) : outcome ScraperSpec :=
  let scrapes := [] in
  let scrapes :=
    match PerformerByName c with
    | Some _ => scrapes ++ [ScrapeTypeName]
    | None => scrapes
    end in
  let scrapes :=
    match PerformerByFragment c with
    | Some _ => scrapes ++ [ScrapeTypeFragment]
    | None => scrapes
    end in
  if (0 <? Z.of_nat (length (PerformerByURL c)))
  then
    urls <- appendPerformerUrls [] (PerformerByURL c) ;;
    Done {| Urls := urls; SupportedScrapes := scrapes ++ [ScrapeTypeURL] |}
  else Done {| Urls := []; SupportedScrapes := scrapes |}.

(** The local [scene] of [toScraper]. *)
Definition sceneSpec (c : scraperConfig) : outcome ScraperSpec :=
  let scrapes := [] in
  let scrapes :=
    match SceneByFragment c with
    | Some _ => scrapes ++ [ScrapeTypeFragment]
    | None => scrapes
    end in
  if (0 <? Z.of_nat (length (SceneByURL c)))
  then
    urls <- appendSceneUrls [] (SceneByURL c) ;;
    Done {| Urls := urls; SupportedScrapes := scrapes ++ [ScrapeTypeURL] |}
  else Done {| Urls := []; SupportedScrapes := scrapes |}.

Definition toScraper (c : scraperConfig) : outcome Scraper :=
  performer <- performerSpec c ;;
  let retPerformer :=
    if (0 <? Z.of_nat (length (SupportedScrapes performer)))
    then Some performer else None in
  scene <- sceneSpec c ;;
  let retScene :=
    if (0 <? Z.of_nat (length (SupportedScrapes scene)))
    then Some scene else None in
  Done {| Scraper_ID := ID c;
          Scraper_Name := Name c;
          Performer := retPerformer;
          Scene := retScene |}.

Definition isNil {A : Type} (p : option A) : bool :=
  match p with
  | None => true
  | Some _ => false
  end.

Definition supportsPerformers (c : scraperConfig) : bool :=
  negb (isNil (PerformerByName c))
  || negb (isNil (PerformerByFragment c))
  || (0 <? Z.of_nat (length (PerformerByURL c))).

Definition supportsScenes (c : scraperConfig) : bool :=
  negb (isNil (SceneByFragment c))
  || (0 <? Z.of_nat (length (SceneByURL c))).

(** ** Dispatcher *)

Fixpoint matchesPerformerURL_loop
  (rules : list (option scrapePerformerByURLConfig)) (url : string)
  : outcome bool :=
  match rules with
  | [] => Done false
  | None :: _ => Panicked NilDereference
  | Some scraper :: rest =>
      if matchesURL (performerByURL_scrapeByURLConfig scraper) url
      then Done true
      else matchesPerformerURL_loop rest url
  end.

Definition matchesPerformerURL (c : scraperConfig) (url : string) : outcome bool :=
  matchesPerformerURL_loop (PerformerByURL c) url.

Definition ScrapePerformerNames (c : scraperConfig) (name : string)
  : call (option (list (option ScrapedPerformer))) :=
  fun w =>
    match PerformerByName c with
    | Some byName =>
        match performerByName_performScrape byName with
        | Some performScrape =>
            performScrape (performerByName_scraperTypeConfig byName) name w
        | None => ((None, None), w)
        end
    | None => ((None, None), w)
    end.

Definition ScrapePerformer (c : scraperConfig)
  (scrapedPerformer : ScrapedPerformerInput) : call (option ScrapedPerformer) :=
  fun w =>
    match PerformerByFragment c with
    | Some byFragment =>
        match performerByFragment_performScrape byFragment with
        | Some performScrape =>
            performScrape (performerByFragment_scraperTypeConfig byFragment)
              scrapedPerformer w
        | None => ((None, None), w)
        end
    | None => ((None, None), w)
    end.

Fixpoint ScrapePerformerURL_loop
  (rules : list (option scrapePerformerByURLConfig)) (url : string) (w : World)
  : outcome ((option ScrapedPerformer * option error) * World) :=
  match rules with
  | [] => Done ((None, None), w)
  | None :: _ => Panicked NilDereference
  | Some scraper :: rest =>
      if matchesURL (performerByURL_scrapeByURLConfig scraper) url
      then
        match performerByURL_performScrape scraper with
        | Some performScrape =>
            let '((ret, err), w') :=
              performScrape
                (byURL_scraperTypeConfig (performerByURL_scrapeByURLConfig scraper))
                url w in
            match err with
            | Some err => Done ((None, Some err), w')
            | None =>
                match ret with
                | Some ret => Done ((Some ret, None), w')
                | None => ScrapePerformerURL_loop rest url w'
                end
            end
        | None => ScrapePerformerURL_loop rest url w
        end
      else ScrapePerformerURL_loop rest url w
  end.

Definition ScrapePerformerURL (c : scraperConfig) (url : string) (w : World)
  : outcome ((option ScrapedPerformer * option error) * World) :=
  ScrapePerformerURL_loop (PerformerByURL c) url w.

Fixpoint matchesSceneURL_loop
  (rules : list (option scrapeSceneByURLConfig)) (url : string)
  : outcome bool :=
  match rules with
  | [] => Done false
  | None :: _ => Panicked NilDereference
  | Some scraper :: rest =>
      if matchesURL (sceneByURL_scrapeByURLConfig scraper) url
      then Done true
      else matchesSceneURL_loop rest url
  end.

Definition matchesSceneURL (c : scraperConfig) (url : string) : outcome bool :=
  matchesSceneURL_loop (SceneByURL c) url.

Definition ScrapeScene (c : scraperConfig) (scene : SceneUpdateInput)
  : call (option ScrapedScene) :=
  fun w =>
    match SceneByFragment c with
    | Some byFragment =>
        match sceneByFragment_performScrape byFragment with
        | Some performScrape =>
            performScrape (sceneByFragment_scraperTypeConfig byFragment) scene w
        | None => ((None, None), w)
        end
    | None => ((None, None), w)
    end.

Fixpoint ScrapeSceneURL_loop
  (rules : list (option scrapeSceneByURLConfig)) (url : string) (w : World)
  : outcome ((option ScrapedScene * option error) * World) :=
  match rules with
  | [] => Done ((None, None), w)
  | None :: _ => Panicked NilDereference
  | Some scraper :: rest =>
      if matchesURL (sceneByURL_scrapeByURLConfig scraper) url
      then
        match sceneByURL_performScrape scraper with
        | Some performScrape =>
            let '((ret, err), w') :=
              performScrape
                (byURL_scraperTypeConfig (sceneByURL_scrapeByURLConfig scraper))
                url w in
            match err with
            | Some err => Done ((None, Some err), w')
            | None =>
                match ret with
                | Some ret => Done ((Some ret, None), w')
                | None => ScrapeSceneURL_loop rest url w'
                end
            end
        | None => ScrapeSceneURL_loop rest url w
        end
      else ScrapeSceneURL_loop rest url w
  end.

Definition ScrapeSceneURL (c : scraperConfig) (url : string) (w : World)
  : outcome ((option ScrapedScene * option error) * World) :=
  ScrapeSceneURL_loop (SceneByURL c) url w.

(** ** Vocabulary of the specification *)

(** No element of the two rule lists is a nil pointer. *)
Definition rulesPresent (c : scraperConfig) : bool :=
  forallb (fun r => negb (isNil r)) (PerformerByURL c)
  && forallb (fun r => negb (isNil r)) (SceneByURL c).

(** The supported modes a definition should advertise for performers, in
    the fixed order by-name, by-fragment, by-url. *)
Definition performerModes (c : scraperConfig) : list ScrapeType :=
  (if isNil (PerformerByName c) then [] else [ScrapeTypeName])
  ++ (if isNil (PerformerByFragment c) then [] else [ScrapeTypeFragment])
  ++ (match PerformerByURL c with [] => [] | _ :: _ => [ScrapeTypeURL] end).

(** The same for scenes: by-fragment, by-url. *)
Definition sceneModes (c : scraperConfig) : list ScrapeType :=
  (if isNil (SceneByFragment c) then [] else [ScrapeTypeFragment])
  ++ (match SceneByURL c with [] => [] | _ :: _ => [ScrapeTypeURL] end).

(** The configured substrings of one performer rule, and of one scene rule. *)
Definition performerRuleURLs (r : option scrapePerformerByURLConfig) : list string :=
  match r with
  | Some r => URL (performerByURL_scrapeByURLConfig r)
  | None => []
  end.

Definition sceneRuleURLs (r : option scrapeSceneByURLConfig) : list string :=
  match r with
  | Some r => URL (sceneByURL_scrapeByURLConfig r)
  | None => []
  end.

(** The resolution pass, on a definition none of whose rules is nil. *)
Definition resolved (c : scraperConfig) : scraperConfig :=
  {| ID := ID c;
     Name := Name c;
     PerformerByName := option_map performerByNameConfig_resolveFn (PerformerByName c);
     PerformerByFragment :=
       option_map performerByFragmentConfig_resolveFn (PerformerByFragment c);
     PerformerByURL :=
       map (option_map scrapePerformerByURLConfig_resolveFn) (PerformerByURL c);
     SceneByFragment := option_map sceneByFragmentConfig_resolveFn (SceneByFragment c);
     SceneByURL := map (option_map scrapeSceneByURLConfig_resolveFn) (SceneByURL c) |}.

(** A capability group of the descriptor: absent when there is no mode. *)
Definition capabilityGroup (modes : list ScrapeType) (urls : list string)
  : option ScraperSpec :=
  match modes with
  | [] => None
  | _ :: _ => Some {| Urls := urls; SupportedScrapes := modes |}
  end.

Section Declines.

(** A URL rule seen through its two parts: what it matches and the handler
    bound to it, if any. *)
Variables (A R : Type).
Variable byURL : R -> scrapeByURLConfig.
Variable performScrape : R -> option (scraperTypeConfig -> string -> call (option A)).
Variable url : string.

(** The rule does not answer the request: it does not match, or its handler
    is unbound (the world is untouched), or the handler is invoked and
    returns neither a result nor an error. *)
Inductive declines : R -> World -> World -> Prop :=
| declines_no_match r w :
    matchesURL (byURL r) url = false -> declines r w w
| declines_unbound r w :
    performScrape r = None -> declines r w w
| declines_absent r h w w' :
    matchesURL (byURL r) url = true ->
    performScrape r = Some h ->
    h (byURL_scraperTypeConfig (byURL r)) url w = ((None, None), w') ->
    declines r w w'.

(** Every rule of the list declines, one after the other. *)
Inductive allDecline : list R -> World -> World -> Prop :=
| allDecline_nil w : allDecline [] w w
| allDecline_cons r rest w w' w'' :
    declines r w w' -> allDecline rest w' w'' -> allDecline (r :: rest) w w''.

End Declines.

(** The two instances the dispatcher needs: a run of performer rules, and a
    run of scene rules, all of which decline the request for [url]. *)
Definition performerRulesDecline (url : string)
  : list scrapePerformerByURLConfig -> World -> World -> Prop :=
  allDecline performerByURL_scrapeByURLConfig performerByURL_performScrape url.

Definition sceneRulesDecline (url : string)
  : list scrapeSceneByURLConfig -> World -> World -> Prop :=
  allDecline sceneByURL_scrapeByURLConfig sceneByURL_performScrape url.

(** No block of the definition has a handler yet: the state the decoder
    leaves, since [performScrape] is an unexported field. *)
Definition handlersUnbound (c : scraperConfig) : bool :=
  match PerformerByName c with
  | Some b => isNil (performerByName_performScrape b)
  | None => true
  end
  && match PerformerByFragment c with
     | Some b => isNil (performerByFragment_performScrape b)
     | None => true
     end
  && forallb (fun r => match r with
                       | Some r => isNil (performerByURL_performScrape r)
                       | None => true
                       end) (PerformerByURL c)
  && match SceneByFragment c with
     | Some b => isNil (sceneByFragment_performScrape b)
     | None => true
     end
  && forallb (fun r => match r with
                       | Some r => isNil (sceneByURL_performScrape r)
                       | None => true
                       end) (SceneByURL c).

End Config.

(** [sub] occurs in [s] as a run of consecutive bytes. *)
Definition occursIn (sub s : string) : Prop :=
  exists pre post : string, s = (pre ++ sub ++ post)%string.

(** ** A small concrete world

    Strings stand for the opaque values; the world is the log of handler
    invocations; a "script" is a toy command whose first word says what the
    run produces; the file system holds a handful of definitions. *)
Module Demo.

#[export] Instance externals : Externals := {|
  ScrapedPerformer := string;
  ScrapedPerformerInput := string;
  ScrapedScene := string;
  SceneUpdateInput := string;
  error := string;
  File := string;
  World := list (list string * string)
|}.

(** What running the toy command yields. *)
Definition run (script : list string) : option string * option string :=
  match script with
  | ["result"; v] => (Some v, None)
  | ["error"; e] => (None, Some e)
  | ["both"; v; e] => (Some v, Some e)
  | _ => (None, None)
  end.

Definition runScript (c : scraperTypeConfig) (input : string)
  : call (option string) :=
  fun w => (run (Script c), w ++ [(Script c, input)]).

Definition runNamesScript (c : scraperTypeConfig) (input : string)
  : call (option (list (option string))) :=
  fun w =>
    let (ret, err) := run (Script c) in
    ((option_map (fun v => [Some v]) ret, err), w ++ [(Script c, input)]).

Definition script (args : list string) : scraperTypeConfig :=
  {| Action := "script"; Script := args |}.

Definition sceneRule (urls args : list string) : option scrapeSceneByURLConfig :=
  Some {| sceneByURL_scrapeByURLConfig :=
            {| byURL_scraperTypeConfig := script args; URL := urls |};
          sceneByURL_performScrape := None |}.

Definition performerRule (urls args : list string)
  : option scrapePerformerByURLConfig :=
  Some {| performerByURL_scrapeByURLConfig :=
            {| byURL_scraperTypeConfig := script args; URL := urls |};
          performerByURL_performScrape := None |}.

(** [mysite.yml], as decoded. *)
Definition mysite : scraperConfig :=
  {| ID := "";
     Name := "My Site";
     PerformerByName :=
       Some {| performerByName_scraperTypeConfig := script ["result"; "Jane"];
               performerByName_performScrape := None |};
     PerformerByFragment := None;
     PerformerByURL :=
       [ performerRule ["example.com/performer"] ["error"; "timeout"];
         performerRule ["example.com"] ["result"; "Jane"] ];
     SceneByFragment := None;
     SceneByURL :=
       [ sceneRule ["example.com/scene"] ["absent"];
         sceneRule ["example.com"] ["result"; "scene 123"] ] |}.

(** [scrapers/legacy.yml]: its only block declares the action [xpath]. *)
Definition legacy : scraperConfig :=
  {| ID := "";
     Name := "Legacy";
     PerformerByName :=
       Some {| performerByName_scraperTypeConfig :=
                 {| Action := "xpath"; Script := [] |};
               performerByName_performScrape := None |};
     PerformerByFragment := None;
     PerformerByURL := [];
     SceneByFragment := None;
     SceneByURL := [] |}.

(** [scrapers/names.yml]: only [performerByName] is populated. *)
Definition names : scraperConfig :=
  {| ID := "";
     Name := "Names";
     PerformerByName :=
       Some {| performerByName_scraperTypeConfig := script ["result"; "Jane"];
               performerByName_performScrape := None |};
     PerformerByFragment := None;
     PerformerByURL := [];
     SceneByFragment := None;
     SceneByURL := [] |}.

(** [scrapers/flaky.yml]: both fragment blocks, and two scene rules of which
    the first fails. *)
Definition flaky : scraperConfig :=
  {| ID := "";
     Name := "Flaky";
     PerformerByName := None;
     PerformerByFragment :=
       Some {| performerByFragment_scraperTypeConfig := script ["result"; "Jane"];
               performerByFragment_performScrape := None |};
     PerformerByURL := [];
     SceneByFragment :=
       Some {| sceneByFragment_scraperTypeConfig := script ["error"; "blocked"];
               sceneByFragment_performScrape := None |};
     SceneByURL :=
       [ sceneRule ["example.com"] ["error"; "timeout"];
         sceneRule ["example.com"] ["result"; "late"] ] |}.

Definition open (path : string) : string + string :=
  if existsb (String.eqb path)
       ["mysite.yml"; "mysite"; "scrapers/legacy.yml"; "scrapers/names.yml";
        "scrapers/flaky.yml"; "scrapers/broken.yml"]
  then inl path
  else inr "open: no such file or directory".

Definition decode (file : string) (ret : option scraperConfig)
  : option scraperConfig * option string :=
  if (file =? "mysite.yml")%string then (Some mysite, None)
  else if (file =? "mysite")%string then (Some mysite, None)
  else if (file =? "scrapers/legacy.yml")%string then (Some legacy, None)
  else if (file =? "scrapers/names.yml")%string then (Some names, None)
  else if (file =? "scrapers/flaky.yml")%string then (Some flaky, None)
  else (ret, Some "yaml: unmarshal errors").

#[export] Instance collaborators : Collaborators := {|
  scrapePerformerNamesScript := runNamesScript;
  scrapePerformerFragmentScript := runScript;
  scrapePerformerURLScript := runScript;
  scrapeSceneFragmentScript := runScript;
  scrapeSceneURLScript := runScript;
  os_Open := open;
  yaml_Decode := decode
|}.

(** The definition the loader returns for [path], or the zero definition. *)
Definition loaded (path : string) : scraperConfig :=
  match loadScraperFromYAML path with
  | Done (Some c, _) => c
  | _ => zeroConfig
  end.

(** Rules as they are after the resolution pass. *)
Definition boundSceneRule (urls args : list string) : scrapeSceneByURLConfig :=
  {| sceneByURL_scrapeByURLConfig :=
       {| byURL_scraperTypeConfig := script args; URL := urls |};
     sceneByURL_performScrape := Some runScript |}.

Definition boundPerformerRule (urls args : list string)
  : scrapePerformerByURLConfig :=
  {| performerByURL_scrapeByURLConfig :=
       {| byURL_scraperTypeConfig := script args; URL := urls |};
     performerByURL_performScrape := Some runScript |}.

End Demo.

(** ** A decoder that hands back nil pointers

    The same handlers over the same world, with a file system of two
    sources: [null.yml], whose document is null, so that the decoder resets
    the pointer it was given, and [hole.yml], whose [performerByURL] list has
    a null element. *)
Module DemoNil.

Definition hole : @scraperConfig Demo.externals :=
  {| ID := "";
     Name := "Hole";
     PerformerByName := None;
     PerformerByFragment := None;
     PerformerByURL := [None];
     SceneByFragment := None;
     SceneByURL := [] |}.

Definition decode (file : string) (ret : option (@scraperConfig Demo.externals))
  : option (@scraperConfig Demo.externals) * option string :=
  if (file =? "null.yml")%string then (None, None)
  else if (file =? "hole.yml")%string then (Some hole, None)
  else (ret, Some "yaml: unmarshal errors").

Definition collaborators : @Collaborators Demo.externals := {|
  scrapePerformerNamesScript := Demo.runNamesScript;
  scrapePerformerFragmentScript := Demo.runScript;
  scrapePerformerURLScript := Demo.runScript;
  scrapeSceneFragmentScript := Demo.runScript;
  scrapeSceneURLScript := Demo.runScript;
  os_Open := fun path => inl path;
  yaml_Decode := decode
|}.

End DemoNil.
Example Base_dir : filepath.Base "scrapers/mysite.yml" = "mysite.yml".
Proof. reflexivity. Qed.

Example Base_trailing : filepath.Base "/a/b.c//" = "b.c".
Proof. reflexivity. Qed.

Example Base_root : filepath.Base "//" = "/".
Proof. reflexivity. Qed.

Example LastIndex_two : strings.LastIndex "a.b.c" "." = 3.
Proof. reflexivity. Qed.

Example LastIndex_none : strings.LastIndex "mysite" "." = -1.
Proof. reflexivity. Qed.

Example LastIndex_empty : strings.LastIndex "abc" "" = 3.
Proof. reflexivity. Qed.

(** ** Facts about the string functions *)

Lemma HasPrefix_spec (s p : string) :
  strings.HasPrefix s p = true <-> exists post, s = (p ++ post)%string.
Proof.
  revert s; induction p as [|a p IH]; intros s; simpl.
  - split; [intros _; now exists s | reflexivity].
  - destruct s as [|b s].
    + split; [discriminate | intros [post E]; discriminate].
    + rewrite andb_true_iff, Ascii.eqb_eq, IH. split.
      * intros [-> [post ->]]. now exists post.
      * intros [post E]. injection E as -> ->. split; [reflexivity | now exists post].
Qed.

Lemma Contains_spec (s sub : string) :
  strings.Contains s sub = true <-> occursIn sub s.
Proof.
  unfold occursIn. induction s as [|a s IH].
  - simpl. rewrite orb_false_r, HasPrefix_spec. split.
    + intros [post E]. now exists ""%string, post.
    + intros [pre [post E]]. destruct pre; [now exists post | simpl in E; discriminate].
  - cbn [strings.Contains]. rewrite orb_true_iff, HasPrefix_spec, IH. split.
    + intros [[post E] | [pre [post E]]].
      * now exists ""%string, post.
      * exists (String a pre), post. simpl. now rewrite E.
    + intros [pre [post E]]. destruct pre as [|b pre].
      * left. now exists post.
      * right. simpl in E. injection E as _ E. now exists pre, post.
Qed.

Lemma Contains_char_cons (ch a : ascii) (s : string) :
  strings.Contains (String a s) (String ch "") =
  Ascii.eqb a ch || strings.Contains s (String ch "").
Proof.
  cbn [strings.Contains strings.HasPrefix]. now rewrite andb_true_r.
Qed.

(** [LastIndex] for a one-byte separator: [-1] when the byte does not occur,
    and otherwise the length of what precedes its last occurrence. *)
Lemma lastIndexFrom_char (ch : ascii) (s : string) (pos found : Z) :
  (strings.Contains s (String ch "") = false /\
   strings.lastIndexFrom s (String ch "") pos found = found)
  \/
  (exists pre post,
      s = (pre ++ String ch post)%string /\
      strings.Contains post (String ch "") = false /\
      strings.lastIndexFrom s (String ch "") pos found
      = pos + Z.of_nat (String.length pre)).
Proof.
  revert pos found. induction s as [|a s IH]; intros pos found.
  - left. split; reflexivity.
  - rewrite Contains_char_cons. cbn [strings.lastIndexFrom strings.HasPrefix].
    rewrite andb_true_r.
    destruct (Ascii.eqb_spec a ch) as [->|Hne].
    + destruct (IH (pos + 1) pos) as [[Hno Hidx] | (pre & post & -> & Hno & Hidx)].
      * right. exists ""%string, s. rewrite Hidx. simpl. repeat split; auto; lia.
      * right. exists (String ch pre), post. rewrite Hidx.
        simpl String.length. repeat split; auto; lia.
    + destruct (IH (pos + 1) found) as [[Hno Hidx] | (pre & post & -> & Hno & Hidx)].
      * left. now rewrite Hno, Hidx.
      * right. exists (String a pre), post. rewrite Hidx.
        simpl String.length. repeat split; auto; lia.
Qed.

Lemma Contains_app_char (ch : ascii) (pre post : string) :
  strings.Contains (pre ++ String ch post) (String ch "") = true.
Proof.
  apply Contains_spec. exists pre, post. reflexivity.
Qed.

Lemma LastIndex_char_absent (ch : ascii) (s : string) :
  strings.Contains s (String ch "") = false ->
  strings.LastIndex s (String ch "") = -1.
Proof.
  intros Hno. unfold strings.LastIndex.
  destruct (lastIndexFrom_char ch s 0 (-1)) as [[_ E] | (pre & post & -> & _ & _)].
  - exact E.
  - rewrite Contains_app_char in Hno. discriminate.
Qed.

Lemma LastIndex_char_present (ch : ascii) (s : string) :
  strings.Contains s (String ch "") = true ->
  exists pre post,
    s = (pre ++ String ch post)%string /\
    strings.Contains post (String ch "") = false /\
    strings.LastIndex s (String ch "") = Z.of_nat (String.length pre).
Proof.
  intros Hyes. unfold strings.LastIndex.
  destruct (lastIndexFrom_char ch s 0 (-1)) as [[Hno _] | (pre & post & E & Hno & Hidx)].
  - rewrite Hno in Hyes. discriminate.
  - exists pre, post. repeat split; auto.
Qed.

Lemma substring_app_prefix (pre rest : string) :
  String.substring 0 (String.length pre) (pre ++ rest) = pre.
Proof.
  induction pre as [|a pre IH]; simpl.
  - now destruct rest.
  - now rewrite IH.
Qed.

Lemma length_app (s t : string) :
  String.length (s ++ t) = (String.length s + String.length t)%nat.
Proof.
  induction s as [|a s IH]; simpl; [reflexivity | now rewrite IH].
Qed.

Lemma sliceTo_prefix (pre rest : string) :
  sliceTo (pre ++ rest) (Z.of_nat (String.length pre)) = Done pre.
Proof.
  unfold sliceTo.
  replace (Z.of_nat (String.length pre) <? 0) with false by (symmetry; apply Z.ltb_ge; lia).
  replace (Z.of_nat (String.length (pre ++ rest)) <? Z.of_nat (String.length pre))
    with false by (symmetry; apply Z.ltb_ge; rewrite length_app; lia).
  simpl. now rewrite Nat2Z.id, substring_app_prefix.
Qed.

(** The stem that the loader cuts off the base filename. *)
Lemma stem_without_separator (s : string) :
  strings.Contains s "." = false ->
  sliceTo s (strings.LastIndex s ".") = Panicked SliceBoundsOutOfRange.
Proof.
  intros Hno. rewrite (LastIndex_char_absent "."%char s Hno). reflexivity.
Qed.

Lemma stem_with_separator (s : string) :
  strings.Contains s "." = true ->
  exists stem ext,
    s = (stem ++ "." ++ ext)%string /\
    strings.Contains ext "." = false /\
    sliceTo s (strings.LastIndex s ".") = Done stem.
Proof.
  intros Hyes.
  destruct (LastIndex_char_present "."%char s Hyes) as (pre & post & E & Hno & Hidx).
  exists pre, post. repeat split; auto.
  rewrite Hidx, E. apply sliceTo_prefix.
Qed.

(** ** The loader *)

Section LoaderFacts.

Context {X : Externals} {K : Collaborators}.

Lemma IsValid_iff (e : scraperAction) :
  IsValid e = true <-> e = scraperActionScript.
Proof.
  unfold IsValid. destruct (String.eqb_spec e scraperActionScript); split; congruence.
Qed.

Lemma resolvePerformerByURL_present (rules : list (option scrapePerformerByURLConfig)) :
  forallb (fun r => negb (isNil r)) rules = true ->
  resolvePerformerByURL rules
  = Done (map (option_map scrapePerformerByURLConfig_resolveFn) rules).
Proof.
  induction rules as [|[r|] rules IH]; simpl; intros H; try discriminate.
  - reflexivity.
  - now rewrite (IH H).
Qed.

Lemma resolveSceneByURL_present (rules : list (option scrapeSceneByURLConfig)) :
  forallb (fun r => negb (isNil r)) rules = true ->
  resolveSceneByURL rules
  = Done (map (option_map scrapeSceneByURLConfig_resolveFn) rules).
Proof.
  induction rules as [|[r|] rules IH]; simpl; intros H; try discriminate.
  - reflexivity.
  - now rewrite (IH H).
Qed.

Lemma resolvePerformerByURL_done rules rules' :
  resolvePerformerByURL rules = Done rules' ->
  forallb (fun r => negb (isNil r)) rules = true.
Proof.
  revert rules'. induction rules as [|[r|] rules IH]; simpl; intros rules' H;
    try discriminate; auto.
  destruct (resolvePerformerByURL rules) as [l|]; try discriminate. eauto.
Qed.

Lemma resolveSceneByURL_done rules rules' :
  resolveSceneByURL rules = Done rules' ->
  forallb (fun r => negb (isNil r)) rules = true.
Proof.
  revert rules'. induction rules as [|[r|] rules IH]; simpl; intros rules' H;
    try discriminate; auto.
  destruct (resolveSceneByURL rules) as [l|]; try discriminate. eauto.
Qed.

Lemma present_map_option_map {A : Type} (f : A -> A) (l : list (option A)) :
  forallb (fun r => negb (isNil r)) (map (option_map f) l)
  = forallb (fun r => negb (isNil r)) l.
Proof.
  induction l as [|[a|] l IH]; simpl; auto.
Qed.

Lemma initialiseConfigs_present (c : scraperConfig) :
  rulesPresent c = true -> initialiseConfigs c = Done (resolved c).
Proof.
  unfold rulesPresent, initialiseConfigs. intros H.
  apply andb_true_iff in H as [Hp Hs].
  rewrite (resolvePerformerByURL_present _ Hp). simpl.
  rewrite (resolveSceneByURL_present _ Hs). reflexivity.
Qed.

Lemma initialiseConfigs_done (c c' : scraperConfig) :
  initialiseConfigs c = Done c' ->
  rulesPresent c = true /\ c' = resolved c.
Proof.
  intros H. assert (Hp : rulesPresent c = true).
  { unfold initialiseConfigs in H. unfold rulesPresent.
    destruct (resolvePerformerByURL (PerformerByURL c)) as [l|] eqn:E1; try discriminate.
    simpl in H.
    destruct (resolveSceneByURL (SceneByURL c)) as [l'|] eqn:E2; try discriminate.
    rewrite (resolvePerformerByURL_done _ E1), (resolveSceneByURL_done _ E2).
    reflexivity. }
  split; [exact Hp|]. rewrite (initialiseConfigs_present _ Hp) in H. congruence.
Qed.

Lemma rulesPresent_resolved (c : scraperConfig) :
  rulesPresent (resolved c) = rulesPresent c.
Proof.
  unfold rulesPresent. simpl. now rewrite !present_map_option_map.
Qed.

(** What a successful load went through. *)
Lemma load_done_inv (path : string) (c : scraperConfig) :
  loadScraperFromYAML path = Done (Some c, None) ->
  exists file raw stem,
    os_Open path = inl file /\
    yaml_Decode file (Some zeroConfig) = (Some raw, None) /\
    sliceTo (filepath.Base path) (strings.LastIndex (filepath.Base path) ".")
    = Done stem /\
    rulesPresent raw = true /\
    c = resolved (setID raw stem).
Proof.
  unfold loadScraperFromYAML. intros H.
  destruct (os_Open path) as [file|e] eqn:Eo; try discriminate.
  destruct (yaml_Decode file (Some zeroConfig)) as [ret [e|]] eqn:Ed;
    try discriminate.
  destruct (sliceTo _ _) as [stem|] eqn:Es; try discriminate. simpl in H.
  destruct ret as [raw|]; try discriminate.
  destruct (initialiseConfigs (setID raw stem)) as [c'|] eqn:Ei; try discriminate.
  simpl in H. injection H as <-.
  apply initialiseConfigs_done in Ei as [Hp ->].
  exists file, raw, stem. repeat split; auto.
Qed.

(** Every definition the loader returns has no nil rule. *)
Lemma load_done_rulesPresent (path : string) (c : scraperConfig) :
  loadScraperFromYAML path = Done (Some c, None) -> rulesPresent c = true.
Proof.
  intros H. destruct (load_done_inv _ H) as (file & raw & stem & _ & _ & _ & Hp & ->).
  now rewrite rulesPresent_resolved.
Qed.

(** When nothing stands in the way the load succeeds. *)
Lemma load_present (path : string) (file : File) (raw : scraperConfig) :
  os_Open path = inl file ->
  yaml_Decode file (Some zeroConfig) = (Some raw, None) ->
  rulesPresent raw = true ->
  strings.Contains (filepath.Base path) "." = true ->
  exists stem ext : string,
    filepath.Base path = (stem ++ "." ++ ext)%string /\
    strings.Contains ext "." = false /\
    loadScraperFromYAML path = Done (Some (resolved (setID raw stem)), None).
Proof.
  intros Ho Hd Hp Hc.
  destruct (stem_with_separator _ Hc) as (stem & ext & E & Hno & Hs).
  exists stem, ext. split; [exact E|]. split; [exact Hno|].
  unfold loadScraperFromYAML. rewrite Ho, Hd, Hs. simpl.
  rewrite initialiseConfigs_present by exact Hp. reflexivity.
Qed.

End LoaderFacts.

Section LoaderClaims.

Context {X : Externals} {K : Collaborators}.

(** C1 (as the code behaves): when the file opens and decodes but the base
    filename contains no ['.'], [strings.LastIndex] answers [-1] and the
    slice expression [id[:-1]] panics: the loader neither returns an error
    nor a definition. *)
Theorem load_without_separator_panics
  (path : string) (file : File) (ret : option scraperConfig) :
  os_Open path = inl file ->
  yaml_Decode file (Some zeroConfig) = (ret, None) ->
  strings.Contains (filepath.Base path) "." = false ->
  loadScraperFromYAML path = Panicked SliceBoundsOutOfRange.
Proof.
  intros Ho Hd Hno. unfold loadScraperFromYAML.
  rewrite Ho, Hd, (stem_without_separator _ Hno). reflexivity.
Qed.

(** C9: the id of a successfully loaded definition is the base filename of
    its source without the final extension: the base filename is the id,
    then ['.'], then an extension that contains no ['.'].  And the load does
    succeed, with such an id, whenever the file opens and decodes, no rule
    is nil and the base filename has a ['.']. *)
Theorem loaded_id_is_filename_stem (path : string) :
  (forall c : scraperConfig,
      loadScraperFromYAML path = Done (Some c, None) ->
      exists ext : string,
        filepath.Base path = (ID c ++ "." ++ ext)%string /\
        strings.Contains ext "." = false)
  /\ (forall (file : File) (raw : scraperConfig),
      os_Open path = inl file ->
      yaml_Decode file (Some zeroConfig) = (Some raw, None) ->
      rulesPresent raw = true ->
      strings.Contains (filepath.Base path) "." = true ->
      exists (c : scraperConfig) (ext : string),
        loadScraperFromYAML path = Done (Some c, None) /\
        filepath.Base path = (ID c ++ "." ++ ext)%string /\
        strings.Contains ext "." = false).
Proof.
  split.
  - intros c H.
    destruct (load_done_inv _ H) as (file & raw & stem & _ & _ & Hs & _ & ->).
    destruct (strings.Contains (filepath.Base path) ".") eqn:Hc.
    + destruct (stem_with_separator _ Hc) as (stem' & ext & E & Hno & Hs').
      rewrite Hs' in Hs. injection Hs as <-.
      exists ext. split; [exact E | exact Hno].
    + rewrite (stem_without_separator _ Hc) in Hs. discriminate.
  - intros file raw Ho Hd Hp Hc.
    destruct (load_present _ Ho Hd Hp Hc) as (stem & ext & E & Hno & Hl).
    exists (resolved (setID raw stem)), ext.
    split; [exact Hl|]. split; [exact E | exact Hno].
Qed.

(** C2 (amended): an action tag other than ["script"] does not make the load
    fail.  Whenever the file opens and decodes, no rule is nil and the base
    filename has a ['.'], the load succeeds and its result is the decoded
    definition with the stem as id and [resolveFn] run over every populated
    block, whatever its action; [resolveFn] leaves a block whose action is
    not ["script"] as it is and binds the script handler otherwise; and
    [IsValid], which the loader does not consult, holds of ["script"] only. *)
Theorem load_resolves_whatever_the_action :
  (forall (path : string) (file : File) (raw : scraperConfig),
      os_Open path = inl file ->
      yaml_Decode file (Some zeroConfig) = (Some raw, None) ->
      rulesPresent raw = true ->
      strings.Contains (filepath.Base path) "." = true ->
      exists stem : string,
        loadScraperFromYAML path = Done (Some (resolved (setID raw stem)), None))
  /\ (forall b, Action (performerByName_scraperTypeConfig b) <> scraperActionScript ->
                performerByNameConfig_resolveFn b = b)
  /\ (forall b, Action (performerByFragment_scraperTypeConfig b) <> scraperActionScript ->
                performerByFragmentConfig_resolveFn b = b)
  /\ (forall b, Action (byURL_scraperTypeConfig (performerByURL_scrapeByURLConfig b))
                <> scraperActionScript ->
                scrapePerformerByURLConfig_resolveFn b = b)
  /\ (forall b, Action (sceneByFragment_scraperTypeConfig b) <> scraperActionScript ->
                sceneByFragmentConfig_resolveFn b = b)
  /\ (forall b, Action (byURL_scraperTypeConfig (sceneByURL_scrapeByURLConfig b))
                <> scraperActionScript ->
                scrapeSceneByURLConfig_resolveFn b = b)
  /\ (forall b, Action (performerByName_scraperTypeConfig b) = scraperActionScript ->
                performerByName_performScrape (performerByNameConfig_resolveFn b)
                = Some scrapePerformerNamesScript)
  /\ (forall b, Action (performerByFragment_scraperTypeConfig b) = scraperActionScript ->
                performerByFragment_performScrape (performerByFragmentConfig_resolveFn b)
                = Some scrapePerformerFragmentScript)
  /\ (forall b, Action (byURL_scraperTypeConfig (performerByURL_scrapeByURLConfig b))
                = scraperActionScript ->
                performerByURL_performScrape (scrapePerformerByURLConfig_resolveFn b)
                = Some scrapePerformerURLScript)
  /\ (forall b, Action (sceneByFragment_scraperTypeConfig b) = scraperActionScript ->
                sceneByFragment_performScrape (sceneByFragmentConfig_resolveFn b)
                = Some scrapeSceneFragmentScript)
  /\ (forall b, Action (byURL_scraperTypeConfig (sceneByURL_scrapeByURLConfig b))
                = scraperActionScript ->
                sceneByURL_performScrape (scrapeSceneByURLConfig_resolveFn b)
                = Some scrapeSceneURLScript)
  /\ (forall e : scraperAction, IsValid e = true <-> e = scraperActionScript).
Proof.
  split.
  { intros path file raw Ho Hd Hp Hc.
    destruct (load_present _ Ho Hd Hp Hc) as (stem & ext & _ & _ & Hl).
    exists stem. exact Hl. }
  repeat match goal with |- _ /\ _ => split end;
    try (intros b Hb;
         cbv beta delta [performerByNameConfig_resolveFn
                           performerByFragmentConfig_resolveFn
                           scrapePerformerByURLConfig_resolveFn
                           sceneByFragmentConfig_resolveFn
                           scrapeSceneByURLConfig_resolveFn];
         match goal with
         | |- context [String.eqb ?a ?b] =>
             destruct (String.eqb_spec a b); [reflexivity || contradiction
                                             | reflexivity || contradiction]
         end).
  apply IsValid_iff.
Qed.

End LoaderClaims.

(** ** The capability projector *)

Section ProjectorFacts.

Context {X : Externals} {K : Collaborators}.

Lemma appendPerformerUrls_present rules : forall urls,
  forallb (fun r => negb (isNil r)) rules = true ->
  appendPerformerUrls urls rules = Done (urls ++ flat_map performerRuleURLs rules).
Proof.
  induction rules as [|[r|] rules IH]; simpl; intros urls H; try discriminate.
  - now rewrite app_nil_r.
  - rewrite (IH _ H). now rewrite app_assoc.
Qed.

Lemma appendSceneUrls_present rules : forall urls,
  forallb (fun r => negb (isNil r)) rules = true ->
  appendSceneUrls urls rules = Done (urls ++ flat_map sceneRuleURLs rules).
Proof.
  induction rules as [|[r|] rules IH]; simpl; intros urls H; try discriminate.
  - now rewrite app_nil_r.
  - rewrite (IH _ H). now rewrite app_assoc.
Qed.

Lemma performerSpec_present (c : scraperConfig) :
  rulesPresent c = true ->
  performerSpec c
  = Done {| Urls := flat_map performerRuleURLs (PerformerByURL c);
            SupportedScrapes := performerModes c |}.
Proof.
  unfold rulesPresent, performerSpec, performerModes. intros H.
  apply andb_true_iff in H as [Hp _].
  destruct (PerformerByURL c) as [|r rules] eqn:E.
  - destruct (PerformerByName c), (PerformerByFragment c); reflexivity.
  - replace (0 <? Z.of_nat (length (r :: rules))) with true
      by (symmetry; apply Z.ltb_lt; simpl length; lia).
    rewrite (appendPerformerUrls_present _ _ Hp).
    destruct (PerformerByName c), (PerformerByFragment c); reflexivity.
Qed.

Lemma sceneSpec_present (c : scraperConfig) :
  rulesPresent c = true ->
  sceneSpec c
  = Done {| Urls := flat_map sceneRuleURLs (SceneByURL c);
            SupportedScrapes := sceneModes c |}.
Proof.
  unfold rulesPresent, sceneSpec, sceneModes. intros H.
  apply andb_true_iff in H as [_ Hs].
  destruct (SceneByURL c) as [|r rules] eqn:E.
  - destruct (SceneByFragment c); reflexivity.
  - replace (0 <? Z.of_nat (length (r :: rules))) with true
      by (symmetry; apply Z.ltb_lt; simpl length; lia).
    rewrite (appendSceneUrls_present _ _ Hs).
    destruct (SceneByFragment c); reflexivity.
Qed.

Lemma group_of_spec (modes : list ScrapeType) (urls : list string) :
  (if 0 <? Z.of_nat (length modes)
   then Some {| Urls := urls; SupportedScrapes := modes |} else None)
  = capabilityGroup modes urls.
Proof.
  destruct modes; reflexivity.
Qed.

(** The descriptor of a definition none of whose rules is nil. *)
Lemma toScraper_present (c : scraperConfig) :
  rulesPresent c = true ->
  toScraper c
  = Done {| Scraper_ID := ID c;
            Scraper_Name := Name c;
            Performer :=
              capabilityGroup (performerModes c)
                (flat_map performerRuleURLs (PerformerByURL c));
            Scene :=
              capabilityGroup (sceneModes c)
                (flat_map sceneRuleURLs (SceneByURL c)) |}.
Proof.
  intros H. unfold toScraper.
  rewrite (performerSpec_present _ H), (sceneSpec_present _ H). simpl.
  now rewrite !group_of_spec.
Qed.

Lemma capabilityGroup_some_iff modes urls :
  capabilityGroup modes urls <> None <-> modes <> [].
Proof.
  destruct modes; simpl; split; congruence.
Qed.

Lemma performerModes_nil_iff (c : scraperConfig) :
  performerModes c = [] <-> supportsPerformers c = false.
Proof.
  unfold performerModes, supportsPerformers.
  destruct (PerformerByName c), (PerformerByFragment c), (PerformerByURL c);
    simpl; split; intros H; try discriminate; try reflexivity.
Qed.

Lemma sceneModes_nil_iff (c : scraperConfig) :
  sceneModes c = [] <-> supportsScenes c = false.
Proof.
  unfold sceneModes, supportsScenes.
  destruct (SceneByFragment c), (SceneByURL c);
    simpl; split; intros H; try discriminate; try reflexivity.
Qed.

Lemma appendPerformerUrls_done rules : forall urls urls',
  appendPerformerUrls urls rules = Done urls' ->
  forallb (fun r => negb (isNil r)) rules = true.
Proof.
  induction rules as [|[r|] rules IH]; simpl; intros urls urls' H;
    try discriminate; eauto.
Qed.

Lemma appendSceneUrls_done rules : forall urls urls',
  appendSceneUrls urls rules = Done urls' ->
  forallb (fun r => negb (isNil r)) rules = true.
Proof.
  induction rules as [|[r|] rules IH]; simpl; intros urls urls' H;
    try discriminate; eauto.
Qed.

(** The projector returns exactly on the definitions without a nil rule. *)
Lemma toScraper_done_rulesPresent (c : scraperConfig) (d : Scraper) :
  toScraper c = Done d -> rulesPresent c = true.
Proof.
  unfold toScraper, performerSpec, sceneSpec, rulesPresent. intros H.
  apply andb_true_iff. split.
  - destruct (PerformerByURL c) as [|r rules]; [reflexivity|].
    replace (0 <? Z.of_nat (length (r :: rules))) with true in H
      by (symmetry; apply Z.ltb_lt; simpl length; lia).
    destruct (appendPerformerUrls [] (r :: rules)) as [urls|] eqn:E;
      [|discriminate].
    exact (appendPerformerUrls_done _ _ E).
  - destruct (SceneByURL c) as [|r rules]; [reflexivity|].
    replace (0 <? Z.of_nat (length (r :: rules))) with true in H
      by (symmetry; apply Z.ltb_lt; simpl length; lia).
    destruct (appendSceneUrls [] (r :: rules)) as [urls|] eqn:E.
    + exact (appendSceneUrls_done _ _ E).
    + destruct (if 0 <? Z.of_nat (length (PerformerByURL c)) then _ else _);
        discriminate.
Qed.

End ProjectorFacts.

Section ProjectorClaims.

Context {X : Externals} {K : Collaborators}.

(** C7: whenever the projector returns a descriptor, the descriptor carries
    the performer (resp. scene) group exactly when the mode list [toScraper]
    has built for it is non-empty, and the group it carries is that very
    struct, so a group is never present with an empty mode list; a
    definition with only [PerformerByName] populated has its performer group,
    with the single mode by-name, and no scene group.  The projector does
    return on every definition none of whose rules is a nil pointer. *)
Theorem group_present_iff_modes_nonempty (c : scraperConfig) :
  (forall d : Scraper,
      toScraper c = Done d ->
      exists performer scene : ScraperSpec,
        performerSpec c = Done performer /\
        sceneSpec c = Done scene /\
        (Performer d <> None <-> SupportedScrapes performer <> []) /\
        (Scene d <> None <-> SupportedScrapes scene <> []) /\
        (forall spec, Performer d = Some spec ->
                      spec = performer /\ SupportedScrapes spec <> []) /\
        (forall spec, Scene d = Some spec ->
                      spec = scene /\ SupportedScrapes spec <> []) /\
        (PerformerByName c <> None ->
         PerformerByFragment c = None -> PerformerByURL c = [] ->
         SceneByFragment c = None -> SceneByURL c = [] ->
         Scene d = None /\
         Performer d = Some {| Urls := []; SupportedScrapes := [ScrapeTypeName] |}))
  /\ (rulesPresent c = true -> exists d : Scraper, toScraper c = Done d).
Proof.
  split; [| intros H; eexists; apply (toScraper_present _ H)].
  intros d Hd. pose proof (toScraper_done_rulesPresent _ Hd) as H.
  rewrite (toScraper_present _ H) in Hd. injection Hd as <-.
  eexists; eexists.
  split; [apply (performerSpec_present _ H)|].
  split; [apply (sceneSpec_present _ H)|].
  cbn [Performer Scene SupportedScrapes].
  split; [apply capabilityGroup_some_iff|].
  split; [apply capabilityGroup_some_iff|].
  split; [|split].
  - intros spec E. destruct (performerModes c) eqn:Em; simpl in E; [discriminate|].
    injection E as <-. split; [reflexivity | discriminate].
  - intros spec E. destruct (sceneModes c) eqn:Em; simpl in E; [discriminate|].
    injection E as <-. split; [reflexivity | discriminate].
  - intros Hn Hf Hu Hsf Hsu. unfold performerModes, sceneModes.
    rewrite Hf, Hu, Hsf, Hsu.
    destruct (PerformerByName c); [|contradiction]. split; reflexivity.
Qed.

(** C8: for a loaded definition the projector returns a descriptor whose
    performer modes are by-name, by-fragment, by-url in this order, each
    present iff its block is populated (by-url iff the rule list is not
    empty), whose scene modes are by-fragment, by-url likewise, and whose
    urls are the configured substrings of the rules, rule after rule in list
    order; a group with no mode is absent. *)
Theorem loaded_descriptor_reflects_blocks (path : string) (c : scraperConfig) :
  loadScraperFromYAML path = Done (Some c, None) ->
  exists d : Scraper,
    toScraper c = Done d /\
    Scraper_ID d = ID c /\
    Scraper_Name d = Name c /\
    Performer d
    = capabilityGroup
        ((if isNil (PerformerByName c) then [] else [ScrapeTypeName])
         ++ (if isNil (PerformerByFragment c) then [] else [ScrapeTypeFragment])
         ++ (match PerformerByURL c with [] => [] | _ :: _ => [ScrapeTypeURL] end))
        (flat_map performerRuleURLs (PerformerByURL c)) /\
    Scene d
    = capabilityGroup
        ((if isNil (SceneByFragment c) then [] else [ScrapeTypeFragment])
         ++ (match SceneByURL c with [] => [] | _ :: _ => [ScrapeTypeURL] end))
        (flat_map sceneRuleURLs (SceneByURL c)).
Proof.
  intros H. apply load_done_rulesPresent in H.
  eexists. split; [apply (toScraper_present _ H)|].
  repeat split.
Qed.

(** C10: whenever the projector returns a descriptor, [supportsPerformers]
    holds exactly when the descriptor has its performer group, and
    [supportsScenes] exactly when it has its scene group; and the projector
    does return on every definition none of whose rules is a nil pointer. *)
Theorem supports_agree_with_descriptor (c : scraperConfig) :
  (forall d : Scraper,
      toScraper c = Done d ->
      (supportsPerformers c = true <-> Performer d <> None) /\
      (supportsScenes c = true <-> Scene d <> None))
  /\ (rulesPresent c = true -> exists d : Scraper, toScraper c = Done d).
Proof.
  split; [| intros H; eexists; apply (toScraper_present _ H)].
  intros d Hd. pose proof (toScraper_done_rulesPresent _ Hd) as H.
  rewrite (toScraper_present _ H) in Hd. injection Hd as <-.
  cbn [Performer Scene]. rewrite !capabilityGroup_some_iff.
  rewrite performerModes_nil_iff, sceneModes_nil_iff.
  split; split; intros E; try congruence;
    match goal with |- ?b = true => destruct b; congruence end.
Qed.

End ProjectorClaims.

(** ** The dispatcher *)

Section DispatcherFacts.

Context {X : Externals} {K : Collaborators}.

Lemma matchesURL_loop_spec (urls : list string) (url : string) :
  matchesURL_loop urls url = true <-> exists u, In u urls /\ occursIn u url.
Proof.
  induction urls as [|u urls IH]; simpl.
  - split; [discriminate | intros [u [[] _]]].
  - destruct (strings.Contains url u) eqn:E.
    + split; [intros _ | reflexivity].
      exists u. split; [now left | now apply Contains_spec].
    + rewrite IH. split.
      * intros [v [Hin Hv]]. exists v. split; [now right | exact Hv].
      * intros [v [[<- | Hin] Hv]].
        -- apply Contains_spec in Hv. congruence.
        -- now exists v.
Qed.

Lemma matchesURL_spec (c : scrapeByURLConfig) (url : string) :
  matchesURL c url = true <-> exists u, In u (URL c) /\ occursIn u url.
Proof.
  apply matchesURL_loop_spec.
Qed.

Lemma matchesPerformerURL_loop_done rules url b :
  matchesPerformerURL_loop rules url = Done b ->
  (b = true <->
   exists r, In (Some r) rules /\
             matchesURL (performerByURL_scrapeByURLConfig r) url = true).
Proof.
  induction rules as [|[r|] rules IH]; simpl; intros H; try discriminate.
  - injection H as <-. split; [discriminate | intros [r [[] _]]].
  - destruct (matchesURL (performerByURL_scrapeByURLConfig r) url) eqn:E.
    + injection H as <-. split; [intros _ | reflexivity].
      exists r. split; [now left | exact E].
    + rewrite (IH H). split.
      * intros [r' [Hin Hm]]. exists r'. split; [now right | exact Hm].
      * intros [r' [[Heq | Hin] Hm]]; [congruence | now exists r'].
Qed.

Lemma matchesSceneURL_loop_done rules url b :
  matchesSceneURL_loop rules url = Done b ->
  (b = true <->
   exists r, In (Some r) rules /\
             matchesURL (sceneByURL_scrapeByURLConfig r) url = true).
Proof.
  induction rules as [|[r|] rules IH]; simpl; intros H; try discriminate.
  - injection H as <-. split; [discriminate | intros [r [[] _]]].
  - destruct (matchesURL (sceneByURL_scrapeByURLConfig r) url) eqn:E.
    + injection H as <-. split; [intros _ | reflexivity].
      exists r. split; [now left | exact E].
    + rewrite (IH H). split.
      * intros [r' [Hin Hm]]. exists r'. split; [now right | exact Hm].
      * intros [r' [[Heq | Hin] Hm]]; [congruence | now exists r'].
Qed.

Lemma matchesPerformerURL_loop_present rules url :
  forallb (fun r => negb (isNil r)) rules = true ->
  exists b, matchesPerformerURL_loop rules url = Done b.
Proof.
  induction rules as [|[r|] rules IH]; simpl; intros H; try discriminate.
  - now exists false.
  - destruct (matchesURL _ url); [now exists true | exact (IH H)].
Qed.

Lemma matchesSceneURL_loop_present rules url :
  forallb (fun r => negb (isNil r)) rules = true ->
  exists b, matchesSceneURL_loop rules url = Done b.
Proof.
  induction rules as [|[r|] rules IH]; simpl; intros H; try discriminate.
  - now exists false.
  - destruct (matchesURL _ url); [now exists true | exact (IH H)].
Qed.

(** Matching looks at the URL part of the rules only. *)
Lemma matchesPerformerURL_loop_handlers rules rules' url :
  map (option_map performerByURL_scrapeByURLConfig) rules
  = map (option_map performerByURL_scrapeByURLConfig) rules' ->
  matchesPerformerURL_loop rules url = matchesPerformerURL_loop rules' url.
Proof.
  revert rules'. induction rules as [|r rules IH]; intros [|r' rules'] E;
    try discriminate; [reflexivity|].
  simpl in E. injection E as Er E.
  destruct r as [r|], r' as [r'|]; try discriminate; [|reflexivity].
  simpl in *. injection Er as ->. now rewrite (IH _ E).
Qed.

Lemma matchesSceneURL_loop_handlers rules rules' url :
  map (option_map sceneByURL_scrapeByURLConfig) rules
  = map (option_map sceneByURL_scrapeByURLConfig) rules' ->
  matchesSceneURL_loop rules url = matchesSceneURL_loop rules' url.
Proof.
  revert rules'. induction rules as [|r rules IH]; intros [|r' rules'] E;
    try discriminate; [reflexivity|].
  simpl in E. injection E as Er E.
  destruct r as [r|], r' as [r'|]; try discriminate; [|reflexivity].
  simpl in *. injection Er as ->. now rewrite (IH _ E).
Qed.

(** Rules that decline are passed over: the loop goes on with what follows
    them, in the world they leave. *)
Lemma ScrapePerformerURL_loop_decline url pre w w' :
  performerRulesDecline url pre w w' ->
  forall rest,
    ScrapePerformerURL_loop (map Some pre ++ rest) url w
    = ScrapePerformerURL_loop rest url w'.
Proof.
  induction 1 as [w | r pre w w' w'' Hr _ IH]; intros rest; [reflexivity|].
  cbn [map app ScrapePerformerURL_loop].
  inversion Hr as [r0 w0 Hm | r0 w0 Hu | r0 h w0 w0' Hm Hb Hh]; subst.
  - rewrite Hm. apply IH.
  - rewrite Hu. destruct (matchesURL _ url); apply IH.
  - rewrite Hm, Hb, Hh. apply IH.
Qed.

Lemma ScrapeSceneURL_loop_decline url pre w w' :
  sceneRulesDecline url pre w w' ->
  forall rest,
    ScrapeSceneURL_loop (map Some pre ++ rest) url w
    = ScrapeSceneURL_loop rest url w'.
Proof.
  induction 1 as [w | r pre w w' w'' Hr _ IH]; intros rest; [reflexivity|].
  cbn [map app ScrapeSceneURL_loop].
  inversion Hr as [r0 w0 Hm | r0 w0 Hu | r0 h w0 w0' Hm Hb Hh]; subst.
  - rewrite Hm. apply IH.
  - rewrite Hu. destruct (matchesURL _ url); apply IH.
  - rewrite Hm, Hb, Hh. apply IH.
Qed.

(** The rule at the head declines, so the answer is the one the rest of the
    list gives in the world the rule leaves. *)
Ltac passes_on IH r w1 Hd :=
  let w' := fresh "w'" in
  let w'' := fresh "w''" in
  let pre := fresh "pre" in
  let r' := fresh "r'" in
  let post := fresh "post" in
  let h' := fresh "h'" in
  let ret' := fresh "ret'" in
  let err' := fresh "err'" in
  let Hall := fresh "Hall" in
  let E := fresh "E" in
  destruct (IH w1)
    as [(w' & Hall & E)
       | (pre & r' & post & h' & ret' & err' & w' & w'' & -> & Hall & ? & ? & ? & ? & E)];
  [ left; exists w'; split; [exact (allDecline_cons Hd Hall) | exact E]
  | right; exists (r :: pre), r', post, h', ret', err', w', w'';
    repeat split; try assumption; try reflexivity;
    exact (allDecline_cons Hd Hall) ].

(** One induction serves both loops: either every rule declines, or a first
    rule is reached whose handler answers with a result or an error. *)
Ltac loop_cases byURL performScrape rules url :=
  let r := fresh "r" in
  let IH := fresh "IH" in
  let w := fresh "w" in
  let w1 := fresh "w1" in
  let h := fresh "h" in
  let ret := fresh "ret" in
  let err := fresh "err" in
  let e := fresh "e" in
  let v := fresh "v" in
  let Hm := fresh "Hm" in
  let Hb := fresh "Hb" in
  let Hh := fresh "Hh" in
  let Hd := fresh "Hd" in
  induction rules as [|r rules IH]; intros w;
  [ left; exists w; split; [apply allDecline_nil | reflexivity] | ];
  cbn [map ScrapePerformerURL_loop ScrapeSceneURL_loop];
  destruct (matchesURL (byURL r) url) eqn:Hm;
  [ destruct (performScrape r) as [h|] eqn:Hb;
    [ destruct (h (byURL_scraperTypeConfig (byURL r)) url w) as [[ret err] w1] eqn:Hh;
      destruct err as [e|]; [ | destruct ret as [v|] ]
    | ]
  | ];
  [ right; exists [], r, rules, h, ret, (Some e), w, w1;
    repeat split; try assumption; [apply allDecline_nil | right; discriminate]
  | right; exists [], r, rules, h, (Some v), None, w, w1;
    repeat split; try assumption; [apply allDecline_nil | left; discriminate]
  | assert (Hd : declines byURL performScrape url r w w1)
      by (eapply declines_absent; eassumption);
    passes_on IH r w1 Hd
  | assert (Hd : declines byURL performScrape url r w w)
      by (apply declines_unbound; assumption);
    passes_on IH r w Hd
  | assert (Hd : declines byURL performScrape url r w w)
      by (apply declines_no_match; assumption);
    passes_on IH r w Hd ].

Lemma ScrapePerformerURL_loop_cases url rules : forall w,
  (exists w',
      performerRulesDecline url rules w w' /\
      ScrapePerformerURL_loop (map Some rules) url w = Done ((None, None), w'))
  \/
  (exists pre r post h ret err w' w'',
      rules = pre ++ r :: post /\
      performerRulesDecline url pre w w' /\
      matchesURL (performerByURL_scrapeByURLConfig r) url = true /\
      performerByURL_performScrape r = Some h /\
      h (byURL_scraperTypeConfig (performerByURL_scrapeByURLConfig r)) url w'
      = ((ret, err), w'') /\
      (ret <> None \/ err <> None) /\
      ScrapePerformerURL_loop (map Some rules) url w
      = Done (match err with
              | Some e => (None, Some e)
              | None => (ret, None)
              end, w'')).
Proof.
  loop_cases performerByURL_scrapeByURLConfig performerByURL_performScrape rules url.
Qed.

Lemma ScrapeSceneURL_loop_cases url rules : forall w,
  (exists w',
      sceneRulesDecline url rules w w' /\
      ScrapeSceneURL_loop (map Some rules) url w = Done ((None, None), w'))
  \/
  (exists pre r post h ret err w' w'',
      rules = pre ++ r :: post /\
      sceneRulesDecline url pre w w' /\
      matchesURL (sceneByURL_scrapeByURLConfig r) url = true /\
      sceneByURL_performScrape r = Some h /\
      h (byURL_scraperTypeConfig (sceneByURL_scrapeByURLConfig r)) url w'
      = ((ret, err), w'') /\
      (ret <> None \/ err <> None) /\
      ScrapeSceneURL_loop (map Some rules) url w
      = Done (match err with
              | Some e => (None, Some e)
              | None => (ret, None)
              end, w'')).
Proof.
  loop_cases sceneByURL_scrapeByURLConfig sceneByURL_performScrape rules url.
Qed.

End DispatcherFacts.

Section DispatcherClaims.

Context {X : Externals} {K : Collaborators}.

(** C3: URL dispatch returns the result of the first rule, in declared
    order, that matches the URL, has a bound handler and yields a result:
    when the rules before it all decline (no match, unbound, or a handler
    that yields nothing), its result is the result of the dispatch, whatever
    follows it; and when every rule declines, the dispatch yields nothing and
    no error.  For performers and for scenes. *)
Theorem dispatch_returns_first_result (c : scraperConfig) (url : string) :
  (forall pre r post h v w w' w'',
      PerformerByURL c = map Some pre ++ Some r :: post ->
      performerRulesDecline url pre w w' ->
      matchesURL (performerByURL_scrapeByURLConfig r) url = true ->
      performerByURL_performScrape r = Some h ->
      h (byURL_scraperTypeConfig (performerByURL_scrapeByURLConfig r)) url w'
      = ((Some v, None), w'') ->
      ScrapePerformerURL c url w = Done ((Some v, None), w''))
  /\ (forall rules w w',
      PerformerByURL c = map Some rules ->
      performerRulesDecline url rules w w' ->
      ScrapePerformerURL c url w = Done ((None, None), w'))
  /\ (forall pre r post h v w w' w'',
      SceneByURL c = map Some pre ++ Some r :: post ->
      sceneRulesDecline url pre w w' ->
      matchesURL (sceneByURL_scrapeByURLConfig r) url = true ->
      sceneByURL_performScrape r = Some h ->
      h (byURL_scraperTypeConfig (sceneByURL_scrapeByURLConfig r)) url w'
      = ((Some v, None), w'') ->
      ScrapeSceneURL c url w = Done ((Some v, None), w''))
  /\ (forall rules w w',
      SceneByURL c = map Some rules ->
      sceneRulesDecline url rules w w' ->
      ScrapeSceneURL c url w = Done ((None, None), w')).
Proof.
  repeat match goal with |- _ /\ _ => split end.
  - intros pre r post h v w w' w'' E Hpre Hm Hb Hh.
    unfold ScrapePerformerURL. rewrite E, (ScrapePerformerURL_loop_decline Hpre).
    cbn [ScrapePerformerURL_loop]. now rewrite Hm, Hb, Hh.
  - intros rules w w' E Hall.
    unfold ScrapePerformerURL. rewrite E, <- (app_nil_r (map Some rules)).
    now rewrite (ScrapePerformerURL_loop_decline Hall).
  - intros pre r post h v w w' w'' E Hpre Hm Hb Hh.
    unfold ScrapeSceneURL. rewrite E, (ScrapeSceneURL_loop_decline Hpre).
    cbn [ScrapeSceneURL_loop]. now rewrite Hm, Hb, Hh.
  - intros rules w w' E Hall.
    unfold ScrapeSceneURL. rewrite E, <- (app_nil_r (map Some rules)).
    now rewrite (ScrapeSceneURL_loop_decline Hall).
Qed.

(** C4: when the handler of a rule that is reached returns an error, the
    dispatch returns that error, with no result, in the world that handler
    left: the rules after it play no part, whatever they are. *)
Theorem dispatch_stops_at_handler_error (c : scraperConfig) (url : string) :
  (forall pre r post h ret err w w' w'',
      PerformerByURL c = map Some pre ++ Some r :: post ->
      performerRulesDecline url pre w w' ->
      matchesURL (performerByURL_scrapeByURLConfig r) url = true ->
      performerByURL_performScrape r = Some h ->
      h (byURL_scraperTypeConfig (performerByURL_scrapeByURLConfig r)) url w'
      = ((ret, Some err), w'') ->
      ScrapePerformerURL c url w = Done ((None, Some err), w''))
  /\ (forall pre r post h ret err w w' w'',
      SceneByURL c = map Some pre ++ Some r :: post ->
      sceneRulesDecline url pre w w' ->
      matchesURL (sceneByURL_scrapeByURLConfig r) url = true ->
      sceneByURL_performScrape r = Some h ->
      h (byURL_scraperTypeConfig (sceneByURL_scrapeByURLConfig r)) url w'
      = ((ret, Some err), w'') ->
      ScrapeSceneURL c url w = Done ((None, Some err), w'')).
Proof.
  split.
  - intros pre r post h ret err w w' w'' E Hpre Hm Hb Hh.
    unfold ScrapePerformerURL. rewrite E, (ScrapePerformerURL_loop_decline Hpre).
    cbn [ScrapePerformerURL_loop]. now rewrite Hm, Hb, Hh.
  - intros pre r post h ret err w w' w'' E Hpre Hm Hb Hh.
    unfold ScrapeSceneURL. rewrite E, (ScrapeSceneURL_loop_decline Hpre).
    cbn [ScrapeSceneURL_loop]. now rewrite Hm, Hb, Hh.
Qed.

(** C5: a rule matches a candidate iff one of its configured strings occurs
    in the candidate, byte for byte; a rule list matches iff one of its rules
    does; the handlers play no part in it; an empty list never matches.  The
    answer is there for every list without a nil pointer. *)
Theorem matches_iff_some_url_occurs (c : scraperConfig) (url : string) :
  (forall r : scrapeByURLConfig,
      matchesURL r url = true <-> exists u, In u (URL r) /\ occursIn u url)
  /\ (forall b : bool,
        matchesPerformerURL c url = Done b ->
        (b = true <->
         exists r u, In (Some r) (PerformerByURL c) /\
                     In u (URL (performerByURL_scrapeByURLConfig r)) /\
                     occursIn u url))
  /\ (forall b : bool,
        matchesSceneURL c url = Done b ->
        (b = true <->
         exists r u, In (Some r) (SceneByURL c) /\
                     In u (URL (sceneByURL_scrapeByURLConfig r)) /\
                     occursIn u url))
  /\ (rulesPresent c = true ->
      (exists b, matchesPerformerURL c url = Done b) /\
      (exists b, matchesSceneURL c url = Done b))
  /\ (forall c' : scraperConfig,
        map (option_map performerByURL_scrapeByURLConfig) (PerformerByURL c)
        = map (option_map performerByURL_scrapeByURLConfig) (PerformerByURL c') ->
        matchesPerformerURL c url = matchesPerformerURL c' url)
  /\ (forall c' : scraperConfig,
        map (option_map sceneByURL_scrapeByURLConfig) (SceneByURL c)
        = map (option_map sceneByURL_scrapeByURLConfig) (SceneByURL c') ->
        matchesSceneURL c url = matchesSceneURL c' url)
  /\ (PerformerByURL c = [] -> matchesPerformerURL c url = Done false)
  /\ (SceneByURL c = [] -> matchesSceneURL c url = Done false).
Proof.
  repeat match goal with |- _ /\ _ => split end.
  - intros r. apply matchesURL_spec.
  - intros b Hb. rewrite (matchesPerformerURL_loop_done _ _ Hb). split.
    + intros [r [Hin Hm]]. apply matchesURL_spec in Hm as [u [Hu Ho]].
      now exists r, u.
    + intros [r [u [Hin [Hu Ho]]]]. exists r. split; [exact Hin|].
      apply matchesURL_spec. now exists u.
  - intros b Hb. rewrite (matchesSceneURL_loop_done _ _ Hb). split.
    + intros [r [Hin Hm]]. apply matchesURL_spec in Hm as [u [Hu Ho]].
      now exists r, u.
    + intros [r [u [Hin [Hu Ho]]]]. exists r. split; [exact Hin|].
      apply matchesURL_spec. now exists u.
  - intros H. apply andb_true_iff in H as [Hp Hs]. split.
    + exact (matchesPerformerURL_loop_present _ url Hp).
    + exact (matchesSceneURL_loop_present _ url Hs).
  - intros c' E. now apply matchesPerformerURL_loop_handlers.
  - intros c' E. now apply matchesSceneURL_loop_handlers.
  - intros E. unfold matchesPerformerURL. now rewrite E.
  - intros E. unfold matchesSceneURL. now rewrite E.
Qed.

(** C6: the three single-block dispatch calls.  When the block is absent, or
    present with no handler bound, the call yields nothing and no error and
    the world is untouched; when it is present and bound, the call is the
    handler's call on the block's type config and the input: same result,
    same error, same effect. *)
Theorem block_dispatch_unbound_or_verbatim (c : scraperConfig) :
  (forall name w,
      PerformerByName c = None \/
      (exists b, PerformerByName c = Some b /\ performerByName_performScrape b = None) ->
      ScrapePerformerNames c name w = ((None, None), w))
  /\ (forall name w b h,
      PerformerByName c = Some b -> performerByName_performScrape b = Some h ->
      ScrapePerformerNames c name w = h (performerByName_scraperTypeConfig b) name w)
  /\ (forall input w,
      PerformerByFragment c = None \/
      (exists b, PerformerByFragment c = Some b /\
                 performerByFragment_performScrape b = None) ->
      ScrapePerformer c input w = ((None, None), w))
  /\ (forall input w b h,
      PerformerByFragment c = Some b -> performerByFragment_performScrape b = Some h ->
      ScrapePerformer c input w = h (performerByFragment_scraperTypeConfig b) input w)
  /\ (forall scene w,
      SceneByFragment c = None \/
      (exists b, SceneByFragment c = Some b /\ sceneByFragment_performScrape b = None) ->
      ScrapeScene c scene w = ((None, None), w))
  /\ (forall scene w b h,
      SceneByFragment c = Some b -> sceneByFragment_performScrape b = Some h ->
      ScrapeScene c scene w = h (sceneByFragment_scraperTypeConfig b) scene w).
Proof.
  unfold ScrapePerformerNames, ScrapePerformer, ScrapeScene.
  repeat match goal with |- _ /\ _ => split end.
  - intros name w [E | [b [E Hb]]]; rewrite E; [|rewrite Hb]; reflexivity.
  - intros name w b h E Hb. now rewrite E, Hb.
  - intros input w [E | [b [E Hb]]]; rewrite E; [|rewrite Hb]; reflexivity.
  - intros input w b h E Hb. now rewrite E, Hb.
  - intros scene w [E | [b [E Hb]]]; rewrite E; [|rewrite Hb]; reflexivity.
  - intros scene w b h E Hb. now rewrite E, Hb.
Qed.

End DispatcherClaims.

(** ** Further properties of the loader and of the resolution pass *)

Section LoaderMore.

Context {X : Externals} {K : Collaborators}.

Lemma resolvePerformerByURL_nil rules :
  forallb (fun r => negb (isNil r)) rules = false ->
  resolvePerformerByURL rules = Panicked NilDereference.
Proof.
  induction rules as [|[r|] rules IH]; simpl; intros H;
    [discriminate | | reflexivity].
  now rewrite (IH H).
Qed.

Lemma resolveSceneByURL_nil rules :
  forallb (fun r => negb (isNil r)) rules = false ->
  resolveSceneByURL rules = Panicked NilDereference.
Proof.
  induction rules as [|[r|] rules IH]; simpl; intros H;
    [discriminate | | reflexivity].
  now rewrite (IH H).
Qed.

Lemma initialiseConfigs_nil (c : scraperConfig) :
  rulesPresent c = false -> initialiseConfigs c = Panicked NilDereference.
Proof.
  unfold rulesPresent, initialiseConfigs. intros H.
  destruct (forallb (fun r => negb (isNil r)) (PerformerByURL c)) eqn:Hp.
  - rewrite (resolvePerformerByURL_present _ Hp). simpl in *.
    now rewrite (resolveSceneByURL_nil _ H).
  - now rewrite (resolvePerformerByURL_nil _ Hp).
Qed.

(** X1: the loader's error result is the error of [os.Open] or the error of
    [Decode], and nothing else: it returns [(nil, e)] exactly when the file
    does not open, with [e], or opens and does not decode, with [e]. *)
Theorem load_error_is_open_or_decode_error (path : string) (e : error) :
  loadScraperFromYAML path = Done (None, Some e) <->
  (os_Open path = inr e \/
   exists (file : File) (ret : option scraperConfig),
     os_Open path = inl file /\
     yaml_Decode file (Some zeroConfig) = (ret, Some e)).
Proof.
  unfold loadScraperFromYAML. split.
  - intros H. destruct (os_Open path) as [file|e0] eqn:Eo.
    + right. destruct (yaml_Decode file (Some zeroConfig)) as [ret [e0|]] eqn:Ed.
      * injection H as ->. now exists file, ret.
      * destruct (sliceTo _ _) as [stem|]; [|discriminate]. simpl in H.
        destruct ret as [raw|]; [|discriminate].
        destruct (initialiseConfigs _); discriminate.
    + left. now injection H as ->.
  - intros [Eo | (file & ret & Eo & Ed)]; rewrite Eo; [reflexivity|].
    now rewrite Ed.
Qed.

(** X2: whatever the loader returns, it is a definition or an error, never
    both and never neither. *)
Theorem load_returns_definition_or_error
  (path : string) (ret : option scraperConfig) (err : option error) :
  loadScraperFromYAML path = Done (ret, err) ->
  (ret = None /\ err <> None) \/ (ret <> None /\ err = None).
Proof.
  unfold loadScraperFromYAML. intros H.
  destruct (os_Open path) as [file|e0].
  - destruct (yaml_Decode file (Some zeroConfig)) as [ret0 [e0|]].
    + injection H as <- <-. left. split; [reflexivity | discriminate].
    + destruct (sliceTo _ _) as [stem|]; [|discriminate]. simpl in H.
      destruct ret0 as [raw|]; [|discriminate].
      destruct (initialiseConfigs _) as [c|]; [|discriminate].
      injection H as <- <-. right. split; [discriminate | reflexivity].
  - injection H as <- <-. left. split; [reflexivity | discriminate].
Qed.

(** X3: a source that decodes without error and has an extension still
    brings the loader down when the decoder hands back a nil definition, or a
    definition with a nil element in one of its rule lists: the loader
    dereferences it and panics. *)
Theorem load_nil_pointer_panics
  (path : string) (file : File) (ret : option scraperConfig) :
  os_Open path = inl file ->
  yaml_Decode file (Some zeroConfig) = (ret, None) ->
  strings.Contains (filepath.Base path) "." = true ->
  (ret = None \/ exists raw, ret = Some raw /\ rulesPresent raw = false) ->
  loadScraperFromYAML path = Panicked NilDereference.
Proof.
  intros Ho Hd Hc Hnil. unfold loadScraperFromYAML. rewrite Ho, Hd.
  destruct (stem_with_separator _ Hc) as (stem & ext & _ & _ & Hs).
  rewrite Hs. simpl.
  destruct Hnil as [-> | (raw & -> & Hp)]; [reflexivity|].
  assert (Hp' : rulesPresent (setID raw stem) = false) by exact Hp.
  now rewrite (initialiseConfigs_nil _ Hp').
Qed.

Lemma resolved_performerByName_handler b :
  performerByName_performScrape b = None ->
  performerByName_performScrape (performerByNameConfig_resolveFn b)
  = if IsValid (Action (performerByName_scraperTypeConfig b))
    then Some scrapePerformerNamesScript else None.
Proof.
  intros H. unfold performerByNameConfig_resolveFn, IsValid.
  destruct (String.eqb _ _); [reflexivity | exact H].
Qed.

Lemma resolved_performerByFragment_handler b :
  performerByFragment_performScrape b = None ->
  performerByFragment_performScrape (performerByFragmentConfig_resolveFn b)
  = if IsValid (Action (performerByFragment_scraperTypeConfig b))
    then Some scrapePerformerFragmentScript else None.
Proof.
  intros H. unfold performerByFragmentConfig_resolveFn, IsValid.
  destruct (String.eqb _ _); [reflexivity | exact H].
Qed.

Lemma resolved_performerByURL_handler b :
  performerByURL_performScrape b = None ->
  performerByURL_performScrape (scrapePerformerByURLConfig_resolveFn b)
  = if IsValid (Action (byURL_scraperTypeConfig (performerByURL_scrapeByURLConfig b)))
    then Some scrapePerformerURLScript else None.
Proof.
  intros H. unfold scrapePerformerByURLConfig_resolveFn, IsValid.
  destruct (String.eqb _ _); [reflexivity | exact H].
Qed.

Lemma resolved_sceneByFragment_handler b :
  sceneByFragment_performScrape b = None ->
  sceneByFragment_performScrape (sceneByFragmentConfig_resolveFn b)
  = if IsValid (Action (sceneByFragment_scraperTypeConfig b))
    then Some scrapeSceneFragmentScript else None.
Proof.
  intros H. unfold sceneByFragmentConfig_resolveFn, IsValid.
  destruct (String.eqb _ _); [reflexivity | exact H].
Qed.

Lemma resolved_sceneByURL_handler b :
  sceneByURL_performScrape b = None ->
  sceneByURL_performScrape (scrapeSceneByURLConfig_resolveFn b)
  = if IsValid (Action (byURL_scraperTypeConfig (sceneByURL_scrapeByURLConfig b)))
    then Some scrapeSceneURLScript else None.
Proof.
  intros H. unfold scrapeSceneByURLConfig_resolveFn, IsValid.
  destruct (String.eqb _ _); [reflexivity | exact H].
Qed.

(** The resolver keeps the type config and the URL list of a block. *)
Lemma resolveFn_performerByName_config b :
  performerByName_scraperTypeConfig (performerByNameConfig_resolveFn b)
  = performerByName_scraperTypeConfig b.
Proof.
  unfold performerByNameConfig_resolveFn. now destruct (String.eqb _ _).
Qed.

Lemma resolveFn_performerByFragment_config b :
  performerByFragment_scraperTypeConfig (performerByFragmentConfig_resolveFn b)
  = performerByFragment_scraperTypeConfig b.
Proof.
  unfold performerByFragmentConfig_resolveFn. now destruct (String.eqb _ _).
Qed.

Lemma resolveFn_performerByURL_config b :
  performerByURL_scrapeByURLConfig (scrapePerformerByURLConfig_resolveFn b)
  = performerByURL_scrapeByURLConfig b.
Proof.
  unfold scrapePerformerByURLConfig_resolveFn. now destruct (String.eqb _ _).
Qed.

Lemma resolveFn_sceneByFragment_config b :
  sceneByFragment_scraperTypeConfig (sceneByFragmentConfig_resolveFn b)
  = sceneByFragment_scraperTypeConfig b.
Proof.
  unfold sceneByFragmentConfig_resolveFn. now destruct (String.eqb _ _).
Qed.

Lemma resolveFn_sceneByURL_config b :
  sceneByURL_scrapeByURLConfig (scrapeSceneByURLConfig_resolveFn b)
  = sceneByURL_scrapeByURLConfig b.
Proof.
  unfold scrapeSceneByURLConfig_resolveFn. now destruct (String.eqb _ _).
Qed.

End LoaderMore.

Section ResolverMore.

Context {X : Externals} {K : Collaborators}.









Lemma performerByName_resolveFn_twice b :
  performerByNameConfig_resolveFn (performerByNameConfig_resolveFn b)
  = performerByNameConfig_resolveFn b.
Proof.
  unfold performerByNameConfig_resolveFn.
  destruct (String.eqb (Action (performerByName_scraperTypeConfig b)) scraperActionScript) eqn:E;
    simpl; now rewrite E.
Qed.

Lemma performerByFragment_resolveFn_twice b :
  performerByFragmentConfig_resolveFn (performerByFragmentConfig_resolveFn b)
  = performerByFragmentConfig_resolveFn b.
Proof.
  unfold performerByFragmentConfig_resolveFn.
  destruct (String.eqb (Action (performerByFragment_scraperTypeConfig b)) scraperActionScript) eqn:E;
    simpl; now rewrite E.
Qed.

Lemma performerByURL_resolveFn_twice b :
  scrapePerformerByURLConfig_resolveFn (scrapePerformerByURLConfig_resolveFn b)
  = scrapePerformerByURLConfig_resolveFn b.
Proof.
  unfold scrapePerformerByURLConfig_resolveFn.
  destruct (String.eqb (Action (byURL_scraperTypeConfig (performerByURL_scrapeByURLConfig b))) scraperActionScript) eqn:E;
    simpl; now rewrite E.
Qed.

Lemma sceneByFragment_resolveFn_twice b :
  sceneByFragmentConfig_resolveFn (sceneByFragmentConfig_resolveFn b)
  = sceneByFragmentConfig_resolveFn b.
Proof.
  unfold sceneByFragmentConfig_resolveFn.
  destruct (String.eqb (Action (sceneByFragment_scraperTypeConfig b)) scraperActionScript) eqn:E;
    simpl; now rewrite E.
Qed.

Lemma sceneByURL_resolveFn_twice b :
  scrapeSceneByURLConfig_resolveFn (scrapeSceneByURLConfig_resolveFn b)
  = scrapeSceneByURLConfig_resolveFn b.
Proof.
  unfold scrapeSceneByURLConfig_resolveFn.
  destruct (String.eqb (Action (byURL_scraperTypeConfig (sceneByURL_scrapeByURLConfig b))) scraperActionScript) eqn:E;
    simpl; now rewrite E.
Qed.

Lemma option_map_twice {A : Type} (f : A -> A) (o : option A) :
  (forall a, f (f a) = f a) ->
  option_map f (option_map f o) = option_map f o.
Proof.
  intros Hf. destruct o; simpl; [now rewrite Hf | reflexivity].
Qed.

Lemma map_option_map_twice {A : Type} (f : A -> A) (l : list (option A)) :
  (forall a, f (f a) = f a) ->
  map (option_map f) (map (option_map f) l) = map (option_map f) l.
Proof.
  intros Hf. induction l as [|o l IH]; simpl; [reflexivity|].
  now rewrite IH, option_map_twice.
Qed.

Lemma resolved_twice (c : scraperConfig) : resolved (resolved c) = resolved c.
Proof.
  unfold resolved. simpl.
  rewrite (option_map_twice _ _ performerByName_resolveFn_twice).
  rewrite (option_map_twice _ _ performerByFragment_resolveFn_twice).
  rewrite (option_map_twice _ _ sceneByFragment_resolveFn_twice).
  rewrite (map_option_map_twice _ _ performerByURL_resolveFn_twice).
  rewrite (map_option_map_twice _ _ sceneByURL_resolveFn_twice).
  reflexivity.
Qed.

(** X5: the resolution pass is idempotent: run on the definition it has
    returned, it returns that definition again. *)
Theorem resolution_is_idempotent (c c' : scraperConfig) :
  initialiseConfigs c = Done c' -> initialiseConfigs c' = Done c'.
Proof.
  intros H. apply initialiseConfigs_done in H as [Hp ->].
  rewrite initialiseConfigs_present by now rewrite rulesPresent_resolved.
  now rewrite resolved_twice.
Qed.

(** X6: the resolver has a handler for the valid action kinds and for no
    other: [IsValid] holds of the members of [allScraperAction], and each of
    the five [resolveFn], run on a block with no handler, binds one exactly
    when the block's action is valid. *)
Theorem resolver_binds_exactly_the_valid_actions :
  (forall e : scraperAction, IsValid e = true <-> In e allScraperAction)
  /\ (forall b, performerByName_performScrape b = None ->
        (performerByName_performScrape (performerByNameConfig_resolveFn b) <> None
         <-> IsValid (Action (performerByName_scraperTypeConfig b)) = true))
  /\ (forall b, performerByFragment_performScrape b = None ->
        (performerByFragment_performScrape (performerByFragmentConfig_resolveFn b)
         <> None
         <-> IsValid (Action (performerByFragment_scraperTypeConfig b)) = true))
  /\ (forall b, performerByURL_performScrape b = None ->
        (performerByURL_performScrape (scrapePerformerByURLConfig_resolveFn b)
         <> None
         <-> IsValid (Action (byURL_scraperTypeConfig
                                (performerByURL_scrapeByURLConfig b))) = true))
  /\ (forall b, sceneByFragment_performScrape b = None ->
        (sceneByFragment_performScrape (sceneByFragmentConfig_resolveFn b) <> None
         <-> IsValid (Action (sceneByFragment_scraperTypeConfig b)) = true))
  /\ (forall b, sceneByURL_performScrape b = None ->
        (sceneByURL_performScrape (scrapeSceneByURLConfig_resolveFn b) <> None
         <-> IsValid (Action (byURL_scraperTypeConfig
                                (sceneByURL_scrapeByURLConfig b))) = true)).
Proof.
  split.
  { intros e. rewrite IsValid_iff. unfold allScraperAction. simpl.
    split; [intros ->; now left | intros [<- | []]; reflexivity]. }
  repeat match goal with |- _ /\ _ => split end; intros b Hb.
  - rewrite (resolved_performerByName_handler _ Hb).
    destruct (IsValid _); split; congruence.
  - rewrite (resolved_performerByFragment_handler _ Hb).
    destruct (IsValid _); split; congruence.
  - rewrite (resolved_performerByURL_handler _ Hb).
    destruct (IsValid _); split; congruence.
  - rewrite (resolved_sceneByFragment_handler _ Hb).
    destruct (IsValid _); split; congruence.
  - rewrite (resolved_sceneByURL_handler _ Hb).
    destruct (IsValid _); split; congruence.
Qed.

(** X7: loading then dispatching.  On a definition loaded from a source
    that decodes with no handler set, each single-block call runs the script
    handler on the block's type config as decoded when the block's action is
    valid, and yields nothing, touching nothing, when the block is missing
    or its action is not valid. *)
Theorem loaded_block_dispatch
  (path : string) (file : File) (raw c : scraperConfig) :
  os_Open path = inl file ->
  yaml_Decode file (Some zeroConfig) = (Some raw, None) ->
  handlersUnbound raw = true ->
  loadScraperFromYAML path = Done (Some c, None) ->
  (forall name w,
      ScrapePerformerNames c name w
      = match PerformerByName raw with
        | Some b =>
            if IsValid (Action (performerByName_scraperTypeConfig b))
            then scrapePerformerNamesScript (performerByName_scraperTypeConfig b) name w
            else ((None, None), w)
        | None => ((None, None), w)
        end)
  /\ (forall input w,
      ScrapePerformer c input w
      = match PerformerByFragment raw with
        | Some b =>
            if IsValid (Action (performerByFragment_scraperTypeConfig b))
            then scrapePerformerFragmentScript
                   (performerByFragment_scraperTypeConfig b) input w
            else ((None, None), w)
        | None => ((None, None), w)
        end)
  /\ (forall scene w,
      ScrapeScene c scene w
      = match SceneByFragment raw with
        | Some b =>
            if IsValid (Action (sceneByFragment_scraperTypeConfig b))
            then scrapeSceneFragmentScript
                   (sceneByFragment_scraperTypeConfig b) scene w
            else ((None, None), w)
        | None => ((None, None), w)
        end).
Proof.
  intros Ho Hd Hu Hl.
  destruct (load_done_inv _ Hl) as (file' & raw' & stem & Ho' & Hd' & _ & _ & ->).
  rewrite Ho in Ho'. injection Ho' as <-.
  rewrite Hd in Hd'. injection Hd' as <-.
  unfold handlersUnbound in Hu.
  repeat (apply andb_true_iff in Hu as [Hu ?]).
  unfold ScrapePerformerNames, ScrapePerformer, ScrapeScene. simpl.
  repeat match goal with |- _ /\ _ => split end; intros i w.
  - destruct (PerformerByName raw) as [b|]; simpl; [|reflexivity].
    rewrite resolved_performerByName_handler, resolveFn_performerByName_config
      by now destruct (performerByName_performScrape b).
    now destruct (IsValid _).
  - destruct (PerformerByFragment raw) as [b|]; simpl; [|reflexivity].
    rewrite resolved_performerByFragment_handler, resolveFn_performerByFragment_config
      by now destruct (performerByFragment_performScrape b).
    now destruct (IsValid _).
  - destruct (SceneByFragment raw) as [b|]; simpl; [|reflexivity].
    rewrite resolved_sceneByFragment_handler, resolveFn_sceneByFragment_config
      by now destruct (sceneByFragment_performScrape b).
    now destruct (IsValid _).
Qed.

End ResolverMore.

(** ** Further properties of the dispatcher *)

Section DispatcherMore.

Context {X : Externals} {K : Collaborators}.

(** X8: in a definition loaded from a source that decodes with no handler
    set, the handler of a URL rule is the script handler when the rule's
    action is valid, and no handler otherwise: URL dispatch on a loaded
    definition never invokes anything else. *)
Theorem loaded_rule_handlers
  (path : string) (file : File) (raw c : scraperConfig) :
  os_Open path = inl file ->
  yaml_Decode file (Some zeroConfig) = (Some raw, None) ->
  handlersUnbound raw = true ->
  loadScraperFromYAML path = Done (Some c, None) ->
  (forall r, In (Some r) (PerformerByURL c) ->
     performerByURL_performScrape r
     = if IsValid (Action (byURL_scraperTypeConfig
                             (performerByURL_scrapeByURLConfig r)))
       then Some scrapePerformerURLScript else None)
  /\ (forall r, In (Some r) (SceneByURL c) ->
     sceneByURL_performScrape r
     = if IsValid (Action (byURL_scraperTypeConfig
                             (sceneByURL_scrapeByURLConfig r)))
       then Some scrapeSceneURLScript else None).
Proof.
  intros Ho Hd Hu Hl.
  destruct (load_done_inv _ Hl) as (file' & raw' & stem & Ho' & Hd' & _ & _ & ->).
  rewrite Ho in Ho'. injection Ho' as <-.
  rewrite Hd in Hd'. injection Hd' as <-.
  unfold handlersUnbound in Hu.
  apply andb_true_iff in Hu as [Hu Hs].
  apply andb_true_iff in Hu as [Hu _].
  apply andb_true_iff in Hu as [_ Hp].
  simpl. split; intros r Hin; apply in_map_iff in Hin as [[r0|] [E Hin]];
    try discriminate; injection E as <-.
  - rewrite resolveFn_performerByURL_config.
    apply resolved_performerByURL_handler.
    pose proof (proj1 (forallb_forall _ _) Hp _ Hin) as H. simpl in H.
    now destruct (performerByURL_performScrape r0).
  - rewrite resolveFn_sceneByURL_config.
    apply resolved_sceneByURL_handler.
    pose proof (proj1 (forallb_forall _ _) Hs _ Hin) as H. simpl in H.
    now destruct (sceneByURL_performScrape r0).
Qed.

Lemma ScrapePerformerURL_loop_app rules1 rules2 url : forall w,
  ScrapePerformerURL_loop (rules1 ++ rules2) url w
  = match ScrapePerformerURL_loop rules1 url w with
    | Done ((None, None), w') => ScrapePerformerURL_loop rules2 url w'
    | other => other
    end.
Proof.
  induction rules1 as [|[r|] rules1 IH]; intros w;
    cbn [app ScrapePerformerURL_loop]; [reflexivity | | reflexivity].
  destruct (matchesURL _ url); [|apply IH].
  destruct (performerByURL_performScrape r) as [h|]; [|apply IH].
  destruct (h _ url w) as [[[v|] [e|]] w1]; try reflexivity. apply IH.
Qed.

Lemma ScrapeSceneURL_loop_app rules1 rules2 url : forall w,
  ScrapeSceneURL_loop (rules1 ++ rules2) url w
  = match ScrapeSceneURL_loop rules1 url w with
    | Done ((None, None), w') => ScrapeSceneURL_loop rules2 url w'
    | other => other
    end.
Proof.
  induction rules1 as [|[r|] rules1 IH]; intros w;
    cbn [app ScrapeSceneURL_loop]; [reflexivity | | reflexivity].
  destruct (matchesURL _ url); [|apply IH].
  destruct (sceneByURL_performScrape r) as [h|]; [|apply IH].
  destruct (h _ url w) as [[[v|] [e|]] w1]; try reflexivity. apply IH.
Qed.

(** X9: URL dispatch over a rule list that is the concatenation of two is
    the dispatch over the first and, only when that yields nothing and no
    error, the dispatch over the second in the world the first left; a
    result, an error or a panic of the first is the outcome of the whole. *)
Theorem dispatch_over_concatenation (c c1 c2 : scraperConfig) (url : string) (w : World) :
  (PerformerByURL c = PerformerByURL c1 ++ PerformerByURL c2 ->
   ScrapePerformerURL c url w
   = match ScrapePerformerURL c1 url w with
     | Done ((None, None), w') => ScrapePerformerURL c2 url w'
     | other => other
     end)
  /\ (SceneByURL c = SceneByURL c1 ++ SceneByURL c2 ->
   ScrapeSceneURL c url w
   = match ScrapeSceneURL c1 url w with
     | Done ((None, None), w') => ScrapeSceneURL c2 url w'
     | other => other
     end).
Proof.
  unfold ScrapePerformerURL, ScrapeSceneURL.
  split; intros ->; [apply ScrapePerformerURL_loop_app | apply ScrapeSceneURL_loop_app].
Qed.

Lemma ScrapePerformerURL_loop_not_both rules url : forall w ret err w',
  ScrapePerformerURL_loop rules url w = Done ((ret, err), w') ->
  ret = None \/ err = None.
Proof.
  induction rules as [|[r|] rules IH]; intros w ret err w';
    cbn [ScrapePerformerURL_loop]; intros H; [| | discriminate].
  - injection H as <- <- _. now left.
  - destruct (matchesURL _ url); [|exact (IH _ _ _ _ H)].
    destruct (performerByURL_performScrape r) as [h|]; [|exact (IH _ _ _ _ H)].
    destruct (h _ url w) as [[[v|] [e|]] w1];
      try (injection H as <- <- _; (now left) || (now right)).
    exact (IH _ _ _ _ H).
Qed.

Lemma ScrapeSceneURL_loop_not_both rules url : forall w ret err w',
  ScrapeSceneURL_loop rules url w = Done ((ret, err), w') ->
  ret = None \/ err = None.
Proof.
  induction rules as [|[r|] rules IH]; intros w ret err w';
    cbn [ScrapeSceneURL_loop]; intros H; [| | discriminate].
  - injection H as <- <- _. now left.
  - destruct (matchesURL _ url); [|exact (IH _ _ _ _ H)].
    destruct (sceneByURL_performScrape r) as [h|]; [|exact (IH _ _ _ _ H)].
    destruct (h _ url w) as [[[v|] [e|]] w1];
      try (injection H as <- <- _; (now left) || (now right)).
    exact (IH _ _ _ _ H).
Qed.

(** X10: URL dispatch never returns a result together with an error, not
    even when a handler does: the result of a failing handler is dropped. *)
Theorem dispatch_never_result_and_error (c : scraperConfig) (url : string) (w : World) :
  (forall ret err w',
      ScrapePerformerURL c url w = Done ((ret, err), w') ->
      ret = None \/ err = None)
  /\ (forall ret err w',
      ScrapeSceneURL c url w = Done ((ret, err), w') ->
      ret = None \/ err = None).
Proof.
  split; intros ret err w' H.
  - exact (ScrapePerformerURL_loop_not_both _ _ _ H).
  - exact (ScrapeSceneURL_loop_not_both _ _ _ H).
Qed.

Lemma ScrapePerformerURL_loop_no_match rules url :
  matchesPerformerURL_loop rules url = Done false ->
  forall w, ScrapePerformerURL_loop rules url w = Done ((None, None), w).
Proof.
  induction rules as [|[r|] rules IH]; simpl; intros H w;
    [reflexivity | | discriminate].
  destruct (matchesURL _ url); [discriminate | exact (IH H w)].
Qed.

Lemma ScrapeSceneURL_loop_no_match rules url :
  matchesSceneURL_loop rules url = Done false ->
  forall w, ScrapeSceneURL_loop rules url w = Done ((None, None), w).
Proof.
  induction rules as [|[r|] rules IH]; simpl; intros H w;
    [reflexivity | | discriminate].
  destruct (matchesURL _ url); [discriminate | exact (IH H w)].
Qed.

Lemma ScrapePerformerURL_loop_answer rules url : forall w ret err w',
  ScrapePerformerURL_loop rules url w = Done ((ret, err), w') ->
  ret <> None \/ err <> None ->
  matchesPerformerURL_loop rules url = Done true.
Proof.
  induction rules as [|[r|] rules IH]; intros w ret err w';
    cbn [ScrapePerformerURL_loop matchesPerformerURL_loop]; intros H Hne;
    [| | discriminate].
  - injection H as <- <- _. destruct Hne as [Hne | Hne]; now elim Hne.
  - destruct (matchesURL _ url); [reflexivity | exact (IH _ _ _ _ H Hne)].
Qed.

Lemma ScrapeSceneURL_loop_answer rules url : forall w ret err w',
  ScrapeSceneURL_loop rules url w = Done ((ret, err), w') ->
  ret <> None \/ err <> None ->
  matchesSceneURL_loop rules url = Done true.
Proof.
  induction rules as [|[r|] rules IH]; intros w ret err w';
    cbn [ScrapeSceneURL_loop matchesSceneURL_loop]; intros H Hne;
    [| | discriminate].
  - injection H as <- <- _. destruct Hne as [Hne | Hne]; now elim Hne.
  - destruct (matchesURL _ url); [reflexivity | exact (IH _ _ _ _ H Hne)].
Qed.

(** X11: the routing test and the dispatch agree.  When [matches] answers
    false for a candidate, URL dispatch on it yields nothing, no error, and
    leaves the world as it was: no handler runs.  And whenever URL dispatch
    returns a result or an error, [matches] answers true. *)
Theorem dispatch_agrees_with_matches (c : scraperConfig) (url : string) :
  (matchesPerformerURL c url = Done false ->
   forall w, ScrapePerformerURL c url w = Done ((None, None), w))
  /\ (matchesSceneURL c url = Done false ->
   forall w, ScrapeSceneURL c url w = Done ((None, None), w))
  /\ (forall w ret err w',
      ScrapePerformerURL c url w = Done ((ret, err), w') ->
      ret <> None \/ err <> None ->
      matchesPerformerURL c url = Done true)
  /\ (forall w ret err w',
      ScrapeSceneURL c url w = Done ((ret, err), w') ->
      ret <> None \/ err <> None ->
      matchesSceneURL c url = Done true).
Proof.
  repeat match goal with |- _ /\ _ => split end.
  - apply ScrapePerformerURL_loop_no_match.
  - apply ScrapeSceneURL_loop_no_match.
  - intros w ret err w'. apply ScrapePerformerURL_loop_answer.
  - intros w ret err w'. apply ScrapeSceneURL_loop_answer.
Qed.

Lemma present_map_Some {A : Type} (l : list (option A)) :
  forallb (fun r => negb (isNil r)) l = true ->
  exists l', l = map Some l'.
Proof.
  induction l as [|[a|] l IH]; simpl; intros H; try discriminate.
  - now exists [].
  - destruct (IH H) as [l' ->]. now exists (a :: l').
Qed.

(** X12: a definition the loader has returned never brings the projector,
    the matching or the URL dispatch down: each of them returns, for every
    candidate and from every world. *)
Theorem loaded_definition_never_panics (path : string) (c : scraperConfig) :
  loadScraperFromYAML path = Done (Some c, None) ->
  (exists d, toScraper c = Done d)
  /\ (forall url,
        (exists b, matchesPerformerURL c url = Done b) /\
        (exists b, matchesSceneURL c url = Done b))
  /\ (forall url w,
        (exists out, ScrapePerformerURL c url w = Done out) /\
        (exists out, ScrapeSceneURL c url w = Done out)).
Proof.
  intros H. apply load_done_rulesPresent in H.
  split; [eexists; apply (toScraper_present _ H)|].
  apply andb_true_iff in H as [Hp Hs].
  split.
  - intros url. split.
    + exact (matchesPerformerURL_loop_present _ url Hp).
    + exact (matchesSceneURL_loop_present _ url Hs).
  - intros url w.
    destruct (present_map_Some _ Hp) as [lp Ep].
    destruct (present_map_Some _ Hs) as [ls Es].
    unfold ScrapePerformerURL, ScrapeSceneURL. rewrite Ep, Es. split.
    + destruct (ScrapePerformerURL_loop_cases url lp w)
        as [(w' & _ & E) | (? & ? & ? & ? & ? & ? & ? & ? & _ & _ & _ & _ & _ & _ & E)];
        rewrite E; eexists; reflexivity.
    + destruct (ScrapeSceneURL_loop_cases url ls w)
        as [(w' & _ & E) | (? & ? & ? & ? & ? & ? & ? & ? & _ & _ & _ & _ & _ & _ & E)];
        rewrite E; eexists; reflexivity.
Qed.

End DispatcherMore.

(** ** Further properties of the matching and of the projector *)

Section MatchingMore.

Context {X : Externals} {K : Collaborators}.

Lemma string_app_assoc (s t u : string) :
  ((s ++ t) ++ u)%string = (s ++ t ++ u)%string.
Proof.
  induction s as [|a s IH]; simpl; [reflexivity | now rewrite IH].
Qed.

Lemma occursIn_extend (sub s pre post : string) :
  occursIn sub s -> occursIn sub (pre ++ s ++ post).
Proof.
  intros (a & b & ->). exists (pre ++ a)%string, (b ++ post)%string.
  now rewrite !string_app_assoc.
Qed.

Lemma occursIn_empty (sub : string) : occursIn sub "" <-> sub = ""%string.
Proof.
  split.
  - intros (a & b & E). destruct a; [|discriminate]. simpl in E.
    destruct sub; [reflexivity | discriminate].
  - intros ->. now exists ""%string, ""%string.
Qed.

Lemma matchesURL_extend (r : scrapeByURLConfig) (url pre post : string) :
  matchesURL r url = true -> matchesURL r (pre ++ url ++ post) = true.
Proof.
  rewrite !matchesURL_spec. intros (u & Hin & Ho).
  exists u. split; [exact Hin | now apply occursIn_extend].
Qed.

(** X13: matching is unanchored: a rule, and a rule list, that matches a
    candidate matches every string that contains the candidate. *)
Theorem matching_is_unanchored (c : scraperConfig) (url pre post : string) :
  (forall r : scrapeByURLConfig,
      matchesURL r url = true -> matchesURL r (pre ++ url ++ post) = true)
  /\ (matchesPerformerURL c url = Done true ->
      matchesPerformerURL c (pre ++ url ++ post) = Done true)
  /\ (matchesSceneURL c url = Done true ->
      matchesSceneURL c (pre ++ url ++ post) = Done true).
Proof.
  split; [intros r; apply matchesURL_extend|].
  unfold matchesPerformerURL, matchesSceneURL. split.
  - induction (PerformerByURL c) as [|[r|] rules IH]; simpl; intros H;
      try discriminate.
    destruct (matchesURL _ url) eqn:E.
    + now rewrite (matchesURL_extend _ _ pre post E).
    + destruct (matchesURL _ (pre ++ url ++ post)); [reflexivity | exact (IH H)].
  - induction (SceneByURL c) as [|[r|] rules IH]; simpl; intros H;
      try discriminate.
    destruct (matchesURL _ url) eqn:E.
    + now rewrite (matchesURL_extend _ _ pre post E).
    + destruct (matchesURL _ (pre ++ url ++ post)); [reflexivity | exact (IH H)].
Qed.

(** X14: the edges of a rule's URL list: a rule with no configured string
    matches nothing; a rule with the empty string among its configured
    strings matches every candidate; and the empty candidate is matched by
    exactly the rules that have the empty string configured. *)
Theorem matching_edge_cases (r : scrapeByURLConfig) (url : string) :
  (URL r = [] -> matchesURL r url = false)
  /\ (In ""%string (URL r) -> matchesURL r url = true)
  /\ (matchesURL r "" = true <-> In ""%string (URL r)).
Proof.
  split; [|split].
  - unfold matchesURL. now intros ->.
  - intros Hin. apply matchesURL_spec. exists ""%string.
    split; [exact Hin | now exists ""%string, url].
  - rewrite matchesURL_spec. split.
    + intros (u & Hin & Ho). apply occursIn_empty in Ho. now subst.
    + intros Hin. exists ""%string. split; [exact Hin | now apply occursIn_empty].
Qed.

Lemma capabilityGroup_some modes urls spec :
  capabilityGroup modes urls = Some spec ->
  Urls spec = urls /\ SupportedScrapes spec = modes /\ modes <> [].
Proof.
  destruct modes; simpl; intros H; [discriminate|].
  injection H as <-. repeat split. discriminate.
Qed.

Lemma performerModes_url (c : scraperConfig) :
  In ScrapeTypeURL (performerModes c) <-> PerformerByURL c <> [].
Proof.
  unfold performerModes.
  destruct (PerformerByName c), (PerformerByFragment c), (PerformerByURL c);
    simpl; split; intros H; try congruence; try discriminate; intuition discriminate.
Qed.

Lemma sceneModes_url (c : scraperConfig) :
  In ScrapeTypeURL (sceneModes c) <-> SceneByURL c <> [].
Proof.
  unfold sceneModes.
  destruct (SceneByFragment c), (SceneByURL c);
    simpl; split; intros H; try congruence; try discriminate; intuition discriminate.
Qed.

Lemma performerModes_shape (c : scraperConfig) :
  NoDup (performerModes c) /\ (length (performerModes c) <= 3)%nat.
Proof.
  unfold performerModes.
  destruct (PerformerByName c), (PerformerByFragment c), (PerformerByURL c);
    simpl; (split; [|lia]);
    repeat (constructor; [simpl; intuition discriminate|]); constructor.
Qed.

Lemma sceneModes_shape (c : scraperConfig) :
  NoDup (sceneModes c) /\ ~ In ScrapeTypeName (sceneModes c).
Proof.
  unfold sceneModes.
  destruct (SceneByFragment c), (SceneByURL c); simpl;
    (split; [repeat (constructor; [simpl; intuition discriminate|]); constructor
            | intuition discriminate]).
Qed.

(** X15: what every descriptor satisfies.  It carries the id and the name
    of the definition; a group's modes have no duplicate, at most three for
    performers, and by-name never appears for scenes; by-url is among a
    group's modes exactly when the definition's rule list is not empty; and a
    group that lists urls has the mode by-url. *)
Theorem descriptor_invariants (c : scraperConfig) (d : Scraper) :
  toScraper c = Done d ->
  Scraper_ID d = ID c /\
  Scraper_Name d = Name c /\
  (forall spec, Performer d = Some spec ->
     NoDup (SupportedScrapes spec) /\
     (length (SupportedScrapes spec) <= 3)%nat /\
     (In ScrapeTypeURL (SupportedScrapes spec) <-> PerformerByURL c <> []) /\
     (Urls spec <> [] -> In ScrapeTypeURL (SupportedScrapes spec))) /\
  (forall spec, Scene d = Some spec ->
     NoDup (SupportedScrapes spec) /\
     ~ In ScrapeTypeName (SupportedScrapes spec) /\
     (In ScrapeTypeURL (SupportedScrapes spec) <-> SceneByURL c <> []) /\
     (Urls spec <> [] -> In ScrapeTypeURL (SupportedScrapes spec))).
Proof.
  intros Hd. pose proof (toScraper_done_rulesPresent _ Hd) as H.
  rewrite (toScraper_present _ H) in Hd. injection Hd as <-.
  cbn [Scraper_ID Scraper_Name Performer Scene].
  split; [reflexivity|]. split; [reflexivity|]. split.
  - intros spec E. apply capabilityGroup_some in E as (Eu & Em & _).
    rewrite Em, Eu.
    split; [apply performerModes_shape|]. split; [apply performerModes_shape|].
    split; [apply performerModes_url|].
    intros Hne. apply performerModes_url. intros E. now rewrite E in Hne.
  - intros spec E. apply capabilityGroup_some in E as (Eu & Em & _).
    rewrite Em, Eu.
    split; [apply sceneModes_shape|]. split; [apply sceneModes_shape|].
    split; [apply sceneModes_url|].
    intros Hne. apply sceneModes_url. intros E. now rewrite E in Hne.
Qed.

Lemma performer_rule_matches_iff_url rules url :
  (exists r, In (Some r) rules /\
             matchesURL (performerByURL_scrapeByURLConfig r) url = true)
  <-> exists u, In u (flat_map performerRuleURLs rules) /\ occursIn u url.
Proof.
  split.
  - intros (r & Hin & Hm). apply matchesURL_spec in Hm as (u & Hu & Ho).
    exists u. split; [|exact Ho]. apply in_flat_map. now exists (Some r).
  - intros (u & Hin & Ho). apply in_flat_map in Hin as ([r|] & Hin & Hu);
      [|destruct Hu].
    exists r. split; [exact Hin|]. apply matchesURL_spec. now exists u.
Qed.

Lemma scene_rule_matches_iff_url rules url :
  (exists r, In (Some r) rules /\
             matchesURL (sceneByURL_scrapeByURLConfig r) url = true)
  <-> exists u, In u (flat_map sceneRuleURLs rules) /\ occursIn u url.
Proof.
  split.
  - intros (r & Hin & Hm). apply matchesURL_spec in Hm as (u & Hu & Ho).
    exists u. split; [|exact Ho]. apply in_flat_map. now exists (Some r).
  - intros (u & Hin & Ho). apply in_flat_map in Hin as ([r|] & Hin & Hu);
      [|destruct Hu].
    exists r. split; [exact Hin|]. apply matchesURL_spec. now exists u.
Qed.

Lemma group_urls_iff modes urls (P : string -> Prop) :
  (urls <> [] -> modes <> []) ->
  (exists u, In u urls /\ P u)
  <-> exists spec u,
        capabilityGroup modes urls = Some spec /\ In u (Urls spec) /\ P u.
Proof.
  intros Hm. split.
  - intros (u & Hin & Hp).
    assert (Hne : modes <> []) by (apply Hm; intros E; now rewrite E in Hin).
    destruct modes as [|m modes]; [now elim Hne|].
    eexists; exists u. simpl. split; [reflexivity|]. now split.
  - intros (spec & u & E & Hin & Hp).
    apply capabilityGroup_some in E as (Eu & _ & _). rewrite Eu in Hin.
    now exists u.
Qed.

(** X16: the descriptor advertises what the matching accepts: a candidate
    is matched by the performer (resp. scene) rules exactly when one of the
    urls listed in the descriptor's performer (resp. scene) group occurs in
    it. *)
Theorem matches_iff_descriptor_url_occurs
  (c : scraperConfig) (d : Scraper) (url : string) :
  toScraper c = Done d ->
  (exists b, matchesPerformerURL c url = Done b /\
     (b = true <->
      exists spec u, Performer d = Some spec /\ In u (Urls spec) /\ occursIn u url))
  /\ (exists b, matchesSceneURL c url = Done b /\
     (b = true <->
      exists spec u, Scene d = Some spec /\ In u (Urls spec) /\ occursIn u url)).
Proof.
  intros Hd. pose proof (toScraper_done_rulesPresent _ Hd) as H.
  rewrite (toScraper_present _ H) in Hd. injection Hd as <-.
  cbn [Performer Scene]. apply andb_true_iff in H as [Hp Hs]. split.
  - destruct (matchesPerformerURL_loop_present _ url Hp) as [b Hb].
    exists b. split; [exact Hb|].
    rewrite (matchesPerformerURL_loop_done _ _ Hb), performer_rule_matches_iff_url.
    apply group_urls_iff. intros Hne E.
    assert (Hu : In ScrapeTypeURL (performerModes c)).
    { apply performerModes_url. intros E'. now rewrite E' in Hne. }
    now rewrite E in Hu.
  - destruct (matchesSceneURL_loop_present _ url Hs) as [b Hb].
    exists b. split; [exact Hb|].
    rewrite (matchesSceneURL_loop_done _ _ Hb), scene_rule_matches_iff_url.
    apply group_urls_iff. intros Hne E.
    assert (Hu : In ScrapeTypeURL (sceneModes c)).
    { apply sceneModes_url. intros E'. now rewrite E' in Hne. }
    now rewrite E in Hu.
Qed.

End MatchingMore.

(** ** Further properties of the id *)

Section IdentityMore.

Context {X : Externals} {K : Collaborators}.

Lemma lastIndexFrom_char_app (ch : ascii) (pre post : string) :
  strings.Contains post (String ch "") = false ->
  forall pos found,
    strings.lastIndexFrom (pre ++ String ch post) (String ch "") pos found
    = pos + Z.of_nat (String.length pre).
Proof.
  intros Hno. induction pre as [|a pre IH]; intros pos found.
  - cbn [String.append strings.lastIndexFrom strings.HasPrefix].
    rewrite Ascii.eqb_refl. cbn [andb].
    destruct (lastIndexFrom_char ch post (pos + 1) pos)
      as [[_ E] | (pre' & post' & E & _ & _)].
    + rewrite E. simpl. lia.
    + rewrite E, Contains_app_char in Hno. discriminate.
  - cbn [String.append strings.lastIndexFrom]. rewrite IH.
    simpl String.length. lia.
Qed.

Lemma stem_of_decomposition (stem ext : string) :
  strings.Contains ext "." = false ->
  sliceTo (stem ++ "." ++ ext) (strings.LastIndex (stem ++ "." ++ ext) ".")
  = Done stem.
Proof.
  intros Hno. unfold strings.LastIndex.
  change ("." ++ ext)%string with (String "."%char ext).
  rewrite (lastIndexFrom_char_app "."%char stem ext Hno). simpl Z.add.
  apply sliceTo_prefix.
Qed.

Lemma load_done_stem (path : string) (c : scraperConfig) :
  loadScraperFromYAML path = Done (Some c, None) ->
  sliceTo (filepath.Base path) (strings.LastIndex (filepath.Base path) ".")
  = Done (ID c).
Proof.
  intros H.
  now destruct (load_done_inv _ H) as (file & raw & stem & _ & _ & Hs & _ & ->).
Qed.

(** X17: the id is determined by the base filename alone, and it is its
    stem: however the base filename is written as a stem, a ['.'] and an
    extension without ['.'], the id of the loaded definition is that stem.
    So two sources whose base filenames differ in the extension only, or
    that lie in different directories, are loaded with the same id. *)
Theorem loaded_id_is_the_stem (path : string) (c : scraperConfig) :
  loadScraperFromYAML path = Done (Some c, None) ->
  (forall stem ext : string,
      filepath.Base path = (stem ++ "." ++ ext)%string ->
      strings.Contains ext "." = false ->
      ID c = stem)
  /\ (forall (path' : string) (c' : scraperConfig) (stem ext ext' : string),
      loadScraperFromYAML path' = Done (Some c', None) ->
      filepath.Base path = (stem ++ "." ++ ext)%string ->
      filepath.Base path' = (stem ++ "." ++ ext')%string ->
      strings.Contains ext "." = false ->
      strings.Contains ext' "." = false ->
      ID c = ID c').
Proof.
  intros H.
  assert (Hstem : forall p k stem ext,
             loadScraperFromYAML p = Done (Some k, None) ->
             filepath.Base p = (stem ++ "." ++ ext)%string ->
             strings.Contains ext "." = false -> ID k = stem).
  { intros p k stem ext Hl E Hno. apply load_done_stem in Hl.
    rewrite E, (stem_of_decomposition stem ext Hno) in Hl. congruence. }
  split.
  - intros stem ext. now apply Hstem.
  - intros path' c' stem ext ext' H' E E' Hno Hno'.
    rewrite (Hstem _ _ _ _ H E Hno). symmetry. exact (Hstem _ _ _ _ H' E' Hno').
Qed.

Lemma takeWhile_Forall (p : ascii -> bool) (l : list ascii) :
  Forall (fun c => p c = true) (filepath.takeWhile p l).
Proof.
  induction l as [|c l IH]; simpl; [constructor|].
  destruct (p c) eqn:E; constructor; assumption.
Qed.

Lemma Contains_list_without_char (ch : ascii) (l : list ascii) :
  Forall (fun c => Ascii.eqb c ch = false) l ->
  strings.Contains (string_of_list_ascii l) (String ch "") = false.
Proof.
  induction 1 as [|c l Hc _ IH]; [reflexivity|].
  cbn [string_of_list_ascii]. now rewrite Contains_char_cons, Hc, IH.
Qed.

(** The base filename is a single path element: it holds no separator,
    unless it is the root. *)
Lemma Base_without_separator (path : string) :
  filepath.Base path = "/"%string \/
  strings.Contains (filepath.Base path) "/" = false.
Proof.
  unfold filepath.Base. destruct (String.eqb path ""); [now right|].
  set (last := rev (filepath.takeWhile _ _)).
  assert (Hl : Forall (fun c => Ascii.eqb c "/"%char = false) last).
  { apply Forall_rev. eapply Forall_impl; [|apply takeWhile_Forall].
    intros c Hc. unfold filepath.isPathSeparator in Hc.
    now destruct (Ascii.eqb c "/"%char). }
  destruct last as [|c last]; [now left|].
  right. now apply Contains_list_without_char.
Qed.

Lemma Contains_app_left (s t sub : string) :
  strings.Contains (s ++ t) sub = false -> strings.Contains s sub = false.
Proof.
  intros H. destruct (strings.Contains s sub) eqn:E; [|reflexivity].
  apply Contains_spec in E as (a & b & ->).
  assert (Ho : strings.Contains ((a ++ sub ++ b) ++ t) sub = true).
  { apply Contains_spec. exists a, (b ++ t)%string.
    now rewrite !string_app_assoc. }
  congruence.
Qed.

(** X18: the id of a loaded definition is never a path: it holds no
    separator, whatever directories the source path goes through. *)
Theorem loaded_id_has_no_separator (path : string) (c : scraperConfig) :
  loadScraperFromYAML path = Done (Some c, None) ->
  strings.Contains (ID c) "/" = false.
Proof.
  intros H. apply load_done_stem in H.
  destruct (strings.Contains (filepath.Base path) ".") eqn:Hc.
  - destruct (stem_with_separator _ Hc) as (stem & ext & E & _ & Hs).
    rewrite Hs in H. injection H as <-.
    destruct (Base_without_separator path) as [Hr | Hno].
    + rewrite Hr in Hc. discriminate.
    + rewrite E in Hno. exact (Contains_app_left _ _ _ Hno).
  - rewrite (stem_without_separator _ Hc) in H. discriminate.
Qed.

End IdentityMore.

(** ** Worked examples in the small concrete world *)

Import Demo.

(** A source without extension: the loader panics. *)
Lemma load_without_separator_panics_witness :
  os_Open "mysite" = inl "mysite" /\
  yaml_Decode "mysite" (Some zeroConfig) = (Some mysite, None) /\
  strings.Contains (filepath.Base "mysite") "." = false /\
  loadScraperFromYAML "mysite" = Panicked SliceBoundsOutOfRange.
Proof.
  do 3 (split; [reflexivity|]).
  apply (@load_without_separator_panics externals collaborators
           "mysite" "mysite" (Some mysite));
    reflexivity.
Defined.

(** [mysite.yml] is loaded with the id ["mysite"]. *)
Lemma loaded_id_is_filename_stem_witness :
  loadScraperFromYAML "mysite.yml" = Done (Some (loaded "mysite.yml"), None) /\
  ID (loaded "mysite.yml") = "mysite" /\
  exists ext : string,
    filepath.Base "mysite.yml" = (ID (loaded "mysite.yml") ++ "." ++ ext)%string /\
    strings.Contains ext "." = false.
Proof.
  split; [reflexivity|]. split; [reflexivity|].
  apply (proj1 (@loaded_id_is_filename_stem externals collaborators "mysite.yml")
           (loaded "mysite.yml")).
  reflexivity.
Defined.

(** C2, as stated, fails on [scrapers/legacy.yml]: its only block declares
    the action ["xpath"], which [IsValid] rejects, and yet the load returns
    the definition, with no error; the block is there, its handler unbound. *)
Lemma unrecognized_action_is_loaded :
  yaml_Decode "scrapers/legacy.yml" (Some zeroConfig) = (Some legacy, None) /\
  option_map (fun b => Action (performerByName_scraperTypeConfig b))
    (PerformerByName legacy) = Some "xpath"%string /\
  IsValid "xpath" = false /\
  exists c b,
    loadScraperFromYAML "scrapers/legacy.yml" = Done (Some c, None) /\
    PerformerByName c = Some b /\
    Action (performerByName_scraperTypeConfig b) = "xpath"%string /\
    performerByName_performScrape b = None.
Proof.
  repeat split.
  eexists. eexists. repeat split.
Qed.

Lemma load_resolves_whatever_the_action_witness :
  os_Open "scrapers/legacy.yml" = inl "scrapers/legacy.yml" /\
  yaml_Decode "scrapers/legacy.yml" (Some zeroConfig) = (Some legacy, None) /\
  rulesPresent legacy = true /\
  strings.Contains (filepath.Base "scrapers/legacy.yml") "." = true /\
  exists stem : string,
    loadScraperFromYAML "scrapers/legacy.yml"
    = Done (Some (resolved (setID legacy stem)), None).
Proof.
  do 4 (split; [reflexivity|]).
  apply (proj1 (@load_resolves_whatever_the_action externals collaborators)
           "scrapers/legacy.yml" "scrapers/legacy.yml" legacy); reflexivity.
Defined.

(** The projection of [mysite.yml]: by-name and by-url for performers, by-url
    for scenes, and the urls of the rules in order. *)
Lemma loaded_descriptor_reflects_blocks_witness :
  loadScraperFromYAML "mysite.yml" = Done (Some (loaded "mysite.yml"), None) /\
  exists d : Scraper,
    toScraper (loaded "mysite.yml") = Done d /\
    Performer d
    = Some {| Urls := ["example.com/performer"; "example.com"];
              SupportedScrapes := [ScrapeTypeName; ScrapeTypeURL] |} /\
    Scene d
    = Some {| Urls := ["example.com/scene"; "example.com"];
              SupportedScrapes := [ScrapeTypeURL] |}.
Proof.
  split; [reflexivity|].
  destruct (@loaded_descriptor_reflects_blocks externals collaborators
              "mysite.yml" (loaded "mysite.yml") eq_refl)
    as (d & Hd & _ & _ & Hp & Hs).
  exists d. split; [exact Hd|]. split; [exact Hp | exact Hs].
Defined.

(** Only [performerByName] is populated in [scrapers/names.yml]: the scene
    group is absent. *)
Lemma group_present_iff_modes_nonempty_witness :
  rulesPresent (loaded "scrapers/names.yml") = true /\
  exists d : Scraper,
    toScraper (loaded "scrapers/names.yml") = Done d /\
    Scene d = None /\
    Performer d = Some {| Urls := []; SupportedScrapes := [ScrapeTypeName] |}.
Proof.
  split; [reflexivity|].
  destruct (proj2 (@group_present_iff_modes_nonempty externals
                     (loaded "scrapers/names.yml")) eq_refl) as [d Hd].
  destruct (proj1 (@group_present_iff_modes_nonempty externals
                     (loaded "scrapers/names.yml")) d Hd)
    as (performer & scene & _ & _ & _ & _ & _ & _ & Hex).
  exists d. split; [exact Hd|].
  apply Hex; [discriminate | reflexivity | reflexivity | reflexivity | reflexivity].
Defined.

Lemma supports_agree_with_descriptor_witness :
  rulesPresent (loaded "scrapers/names.yml") = true /\
  supportsPerformers (loaded "scrapers/names.yml") = true /\
  supportsScenes (loaded "scrapers/names.yml") = false /\
  exists d : Scraper,
    toScraper (loaded "scrapers/names.yml") = Done d /\
    (supportsPerformers (loaded "scrapers/names.yml") = true <-> Performer d <> None) /\
    (supportsScenes (loaded "scrapers/names.yml") = true <-> Scene d <> None).
Proof.
  do 3 (split; [reflexivity|]).
  destruct (proj2 (@supports_agree_with_descriptor externals
                     (loaded "scrapers/names.yml")) eq_refl) as [d Hd].
  exists d. split; [exact Hd|].
  exact (proj1 (@supports_agree_with_descriptor externals
                  (loaded "scrapers/names.yml")) d Hd).
Defined.

(** The scene rules of [mysite.yml] against a scene URL: the first rule
    matches and yields nothing, the second yields the result. *)
Lemma dispatch_returns_first_result_witness :
  SceneByURL (loaded "mysite.yml")
  = map Some [boundSceneRule ["example.com/scene"] ["absent"]]
    ++ Some (boundSceneRule ["example.com"] ["result"; "scene 123"]) :: [] /\
  sceneRulesDecline "https://example.com/scene/123"
    [boundSceneRule ["example.com/scene"] ["absent"]]
    [] [(["absent"], "https://example.com/scene/123")] /\
  matchesURL
    (sceneByURL_scrapeByURLConfig
       (boundSceneRule ["example.com"] ["result"; "scene 123"]))
    "https://example.com/scene/123" = true /\
  ScrapeSceneURL (loaded "mysite.yml") "https://example.com/scene/123" []
  = Done ((Some "scene 123"%string, None),
          [(["absent"], "https://example.com/scene/123");
           (["result"; "scene 123"], "https://example.com/scene/123")]).
Proof.
  assert (Hpre : sceneRulesDecline "https://example.com/scene/123"
                   [boundSceneRule ["example.com/scene"] ["absent"]]
                   [] [(["absent"], "https://example.com/scene/123")]).
  { eapply allDecline_cons; [|apply allDecline_nil].
    eapply declines_absent; reflexivity. }
  split; [reflexivity|]. split; [exact Hpre|]. split; [reflexivity|].
  apply (proj1 (proj2 (proj2
           (@dispatch_returns_first_result externals
              (loaded "mysite.yml") "https://example.com/scene/123")))
           [boundSceneRule ["example.com/scene"] ["absent"]]
           (boundSceneRule ["example.com"] ["result"; "scene 123"])
           [] runScript "scene 123"%string
           [] [(["absent"], "https://example.com/scene/123")]
           [(["absent"], "https://example.com/scene/123");
            (["result"; "scene 123"], "https://example.com/scene/123")]);
    solve [reflexivity | exact Hpre].
Defined.

(** The scene rules of [scrapers/flaky.yml]: the first handler fails, and the
    log of invocations shows that the second, which matches too, was never
    run. *)
Lemma dispatch_stops_at_handler_error_witness :
  SceneByURL (loaded "scrapers/flaky.yml")
  = map Some []
    ++ Some (boundSceneRule ["example.com"] ["error"; "timeout"])
    :: [Some (boundSceneRule ["example.com"] ["result"; "late"])] /\
  sceneRulesDecline "https://example.com/scene/123" [] [] [] /\
  matchesURL
    (sceneByURL_scrapeByURLConfig
       (boundSceneRule ["example.com"] ["result"; "late"]))
    "https://example.com/scene/123" = true /\
  ScrapeSceneURL (loaded "scrapers/flaky.yml") "https://example.com/scene/123" []
  = Done ((None, Some "timeout"%string),
          [(["error"; "timeout"], "https://example.com/scene/123")]).
Proof.
  split; [reflexivity|]. split; [apply allDecline_nil|]. split; [reflexivity|].
  apply (proj2 (@dispatch_stops_at_handler_error externals
                  (loaded "scrapers/flaky.yml") "https://example.com/scene/123")
           [] (boundSceneRule ["example.com"] ["error"; "timeout"])
           [Some (boundSceneRule ["example.com"] ["result"; "late"])]
           runScript None "timeout"%string
           [] [] [(["error"; "timeout"], "https://example.com/scene/123")]);
    solve [reflexivity | apply allDecline_nil].
Defined.

(** Matching is by substring and by byte: the performer rules of
    [mysite.yml] match a URL of the site and not the same URL in capitals. *)
Lemma matches_iff_some_url_occurs_witness :
  rulesPresent (loaded "mysite.yml") = true /\
  matchesPerformerURL (loaded "mysite.yml") "https://example.com/x" = Done true /\
  matchesPerformerURL (loaded "mysite.yml") "https://EXAMPLE.COM/x" = Done false /\
  (true = true <->
   exists r u, In (Some r) (PerformerByURL (loaded "mysite.yml")) /\
               In u (URL (performerByURL_scrapeByURLConfig r)) /\
               occursIn u "https://example.com/x").
Proof.
  do 3 (split; [reflexivity|]).
  apply (proj1 (proj2
           (@matches_iff_some_url_occurs externals
              (loaded "mysite.yml") "https://example.com/x")) true).
  reflexivity.
Defined.

(** The single-block calls on [mysite.yml]: by-name is bound and the call is
    the handler's; by-fragment is absent and the call yields nothing. *)
Lemma block_dispatch_unbound_or_verbatim_witness :
  PerformerByFragment (loaded "mysite.yml") = None /\
  ScrapePerformer (loaded "mysite.yml") "Jane" [] = ((None, None), []) /\
  PerformerByName (loaded "mysite.yml")
  = Some {| performerByName_scraperTypeConfig := script ["result"; "Jane"];
            performerByName_performScrape := Some runNamesScript |} /\
  ScrapePerformerNames (loaded "mysite.yml") "Jane" []
  = runNamesScript (script ["result"; "Jane"]) "Jane" [].
Proof.
  split; [reflexivity|].
  split.
  { apply (proj1 (proj2 (proj2
             (@block_dispatch_unbound_or_verbatim externals
                (loaded "mysite.yml"))))).
    left. reflexivity. }
  split; [reflexivity|].
  apply (proj1 (proj2
           (@block_dispatch_unbound_or_verbatim externals
              (loaded "mysite.yml")))
           "Jane" []
           {| performerByName_scraperTypeConfig := script ["result"; "Jane"];
              performerByName_performScrape := Some runNamesScript |}
           runNamesScript); reflexivity.
Defined.

(** ** Worked examples for the further properties *)

(** A file that is not there, and a file that does not decode. *)
Lemma load_error_is_open_or_decode_error_witness :
  os_Open "missing.yml" = inr "open: no such file or directory"%string /\
  loadScraperFromYAML "missing.yml"
  = Done (None, Some "open: no such file or directory"%string) /\
  yaml_Decode "scrapers/broken.yml" (Some zeroConfig)
  = (Some zeroConfig, Some "yaml: unmarshal errors"%string) /\
  loadScraperFromYAML "scrapers/broken.yml"
  = Done (None, Some "yaml: unmarshal errors"%string).
Proof.
  split; [reflexivity|]. split.
  { apply (proj2 (@load_error_is_open_or_decode_error externals collaborators
                    "missing.yml" "open: no such file or directory"%string)).
    left. reflexivity. }
  split; [reflexivity|].
  apply (proj2 (@load_error_is_open_or_decode_error externals collaborators
                  "scrapers/broken.yml" "yaml: unmarshal errors"%string)).
  right. exists "scrapers/broken.yml"%string, (Some zeroConfig).
  split; reflexivity.
Defined.

Lemma load_returns_definition_or_error_witness :
  loadScraperFromYAML "mysite.yml" = Done (Some (loaded "mysite.yml"), None) /\
  ((Some (loaded "mysite.yml") = None /\ @None string <> None) \/
   (Some (loaded "mysite.yml") <> None /\ @None string = None)).
Proof.
  split; [reflexivity|].
  apply (@load_returns_definition_or_error externals collaborators
           "mysite.yml" (Some (loaded "mysite.yml")) None).
  reflexivity.
Defined.

(** A list with a null element, and a null document. *)
Lemma load_nil_pointer_panics_witness :
  @os_Open externals DemoNil.collaborators "hole.yml" = inl "hole.yml"%string /\
  @yaml_Decode externals DemoNil.collaborators "hole.yml" (Some zeroConfig)
  = (Some DemoNil.hole, None) /\
  strings.Contains (filepath.Base "hole.yml") "." = true /\
  rulesPresent DemoNil.hole = false /\
  @loadScraperFromYAML externals DemoNil.collaborators "hole.yml"
  = Panicked NilDereference /\
  @yaml_Decode externals DemoNil.collaborators "null.yml" (Some zeroConfig)
  = (None, None) /\
  @loadScraperFromYAML externals DemoNil.collaborators "null.yml"
  = Panicked NilDereference.
Proof.
  do 4 (split; [reflexivity|]). split.
  { apply (@load_nil_pointer_panics externals DemoNil.collaborators
             "hole.yml" "hole.yml"%string (Some DemoNil.hole));
      try reflexivity.
    right. exists DemoNil.hole. split; reflexivity. }
  split; [reflexivity|].
  apply (@load_nil_pointer_panics externals DemoNil.collaborators
           "null.yml" "null.yml"%string None); try reflexivity.
  left. reflexivity.
Defined.


Lemma resolution_is_idempotent_witness :
  initialiseConfigs (setID mysite "mysite") = Done (loaded "mysite.yml") /\
  initialiseConfigs (loaded "mysite.yml") = Done (loaded "mysite.yml").
Proof.
  split; [reflexivity|].
  apply (@resolution_is_idempotent externals collaborators
           (setID mysite "mysite") (loaded "mysite.yml")).
  reflexivity.
Defined.

(** The block of [scrapers/legacy.yml], action ["xpath"], stays unbound. *)
Lemma resolver_binds_exactly_the_valid_actions_witness :
  performerByName_performScrape
    {| performerByName_scraperTypeConfig := {| Action := "xpath"; Script := [] |};
       performerByName_performScrape := None |} = None /\
  (performerByName_performScrape
     (performerByNameConfig_resolveFn
        {| performerByName_scraperTypeConfig := {| Action := "xpath"; Script := [] |};
           performerByName_performScrape := None |}) <> None
   <-> IsValid "xpath" = true).
Proof.
  split; [reflexivity|].
  apply (proj1 (proj2 (@resolver_binds_exactly_the_valid_actions
                         externals collaborators))).
  reflexivity.
Defined.

Lemma loaded_block_dispatch_witness :
  os_Open "scrapers/legacy.yml" = inl "scrapers/legacy.yml"%string /\
  yaml_Decode "scrapers/legacy.yml" (Some zeroConfig) = (Some legacy, None) /\
  handlersUnbound legacy = true /\
  loadScraperFromYAML "scrapers/legacy.yml"
  = Done (Some (loaded "scrapers/legacy.yml"), None) /\
  forall name w,
    ScrapePerformerNames (loaded "scrapers/legacy.yml") name w = ((None, None), w).
Proof.
  do 4 (split; [reflexivity|]).
  exact (proj1 (@loaded_block_dispatch externals collaborators
                  "scrapers/legacy.yml" "scrapers/legacy.yml"%string legacy
                  (loaded "scrapers/legacy.yml")
                  eq_refl eq_refl eq_refl eq_refl)).
Defined.

Lemma loaded_rule_handlers_witness :
  os_Open "mysite.yml" = inl "mysite.yml"%string /\
  yaml_Decode "mysite.yml" (Some zeroConfig) = (Some mysite, None) /\
  handlersUnbound mysite = true /\
  loadScraperFromYAML "mysite.yml" = Done (Some (loaded "mysite.yml"), None) /\
  forall r, In (Some r) (SceneByURL (loaded "mysite.yml")) ->
    sceneByURL_performScrape r
    = if IsValid (Action (byURL_scraperTypeConfig (sceneByURL_scrapeByURLConfig r)))
      then Some runScript else None.
Proof.
  do 4 (split; [reflexivity|]).
  exact (proj2 (@loaded_rule_handlers externals collaborators
                  "mysite.yml" "mysite.yml"%string mysite (loaded "mysite.yml")
                  eq_refl eq_refl eq_refl eq_refl)).
Defined.

(** The scene rules of [mysite.yml] followed by those of
    [scrapers/flaky.yml]: the first list answers, the second is not tried. *)
Lemma dispatch_over_concatenation_witness :
  SceneByURL (setID
                {| ID := ""; Name := "Both";
                   PerformerByName := None; PerformerByFragment := None;
                   PerformerByURL := []; SceneByFragment := None;
                   SceneByURL := SceneByURL (loaded "mysite.yml")
                                 ++ SceneByURL (loaded "scrapers/flaky.yml") |}
                "both")
  = SceneByURL (loaded "mysite.yml") ++ SceneByURL (loaded "scrapers/flaky.yml") /\
  ScrapeSceneURL
    (setID
       {| ID := ""; Name := "Both";
          PerformerByName := None; PerformerByFragment := None;
          PerformerByURL := []; SceneByFragment := None;
          SceneByURL := SceneByURL (loaded "mysite.yml")
                        ++ SceneByURL (loaded "scrapers/flaky.yml") |}
       "both")
    "https://example.com/scene/123" []
  = match ScrapeSceneURL (loaded "mysite.yml") "https://example.com/scene/123" [] with
    | Done ((None, None), w') =>
        ScrapeSceneURL (loaded "scrapers/flaky.yml") "https://example.com/scene/123" w'
    | other => other
    end.
Proof.
  split; [reflexivity|].
  apply (proj2 (@dispatch_over_concatenation externals _
                  (loaded "mysite.yml") (loaded "scrapers/flaky.yml")
                  "https://example.com/scene/123" [])).
  reflexivity.
Defined.

(** A handler that returns a result and an error: the error alone comes
    back. *)
Lemma dispatch_never_result_and_error_witness :
  ScrapeSceneURL
    {| ID := "both"; Name := "Both";
       PerformerByName := None; PerformerByFragment := None;
       PerformerByURL := []; SceneByFragment := None;
       SceneByURL := [Some (boundSceneRule ["example.com"] ["both"; "scene"; "late"])] |}
    "https://example.com/scene/123" []
  = Done ((None, Some "late"%string),
          [(["both"; "scene"; "late"], "https://example.com/scene/123")]) /\
  (@None string = None \/ Some "late"%string = None).
Proof.
  split; [reflexivity|].
  apply (proj2 (@dispatch_never_result_and_error externals
                  {| ID := "both"; Name := "Both";
                     PerformerByName := None; PerformerByFragment := None;
                     PerformerByURL := []; SceneByFragment := None;
                     SceneByURL :=
                       [Some (boundSceneRule ["example.com"]
                                ["both"; "scene"; "late"])] |}
                  "https://example.com/scene/123" [])
           None (Some "late"%string)
           [(["both"; "scene"; "late"], "https://example.com/scene/123")]).
  reflexivity.
Defined.

Lemma dispatch_agrees_with_matches_witness :
  matchesSceneURL (loaded "mysite.yml") "https://elsewhere.org/scene/1" = Done false /\
  forall w,
    ScrapeSceneURL (loaded "mysite.yml") "https://elsewhere.org/scene/1" w
    = Done ((None, None), w).
Proof.
  split; [reflexivity|].
  apply (proj1 (proj2 (@dispatch_agrees_with_matches externals
                         (loaded "mysite.yml") "https://elsewhere.org/scene/1"))).
  reflexivity.
Defined.

Lemma loaded_definition_never_panics_witness :
  loadScraperFromYAML "scrapers/flaky.yml"
  = Done (Some (loaded "scrapers/flaky.yml"), None) /\
  forall url w,
    (exists out, ScrapePerformerURL (loaded "scrapers/flaky.yml") url w = Done out) /\
    (exists out, ScrapeSceneURL (loaded "scrapers/flaky.yml") url w = Done out).
Proof.
  split; [reflexivity|].
  apply (@loaded_definition_never_panics externals collaborators
           "scrapers/flaky.yml" (loaded "scrapers/flaky.yml")).
  reflexivity.
Defined.

Lemma matching_is_unanchored_witness :
  matchesPerformerURL (loaded "mysite.yml") "example.com" = Done true /\
  matchesPerformerURL (loaded "mysite.yml") ("https://" ++ "example.com" ++ "/x")
  = Done true.
Proof.
  split; [reflexivity|].
  apply (proj1 (proj2 (@matching_is_unanchored externals
                         (loaded "mysite.yml") "example.com" "https://" "/x"))).
  reflexivity.
Defined.

Lemma matching_edge_cases_witness :
  In ""%string (URL {| byURL_scraperTypeConfig := script []; URL := [""%string] |}) /\
  matchesURL {| byURL_scraperTypeConfig := script []; URL := [""%string] |}
    "https://example.com" = true /\
  URL {| byURL_scraperTypeConfig := script []; URL := [] |} = [] /\
  matchesURL {| byURL_scraperTypeConfig := script []; URL := [] |}
    "https://example.com" = false.
Proof.
  split; [now left|]. split.
  { apply (proj1 (proj2 (matching_edge_cases
                           {| byURL_scraperTypeConfig := script [];
                              URL := [""%string] |} "https://example.com"))).
    now left. }
  split; [reflexivity|].
  apply (proj1 (matching_edge_cases
                  {| byURL_scraperTypeConfig := script []; URL := [] |}
                  "https://example.com")).
  reflexivity.
Defined.

Lemma descriptor_invariants_witness :
  exists d : Scraper,
    toScraper (loaded "mysite.yml") = Done d /\
    Scraper_ID d = "mysite"%string /\
    Scraper_Name d = "My Site"%string /\
    forall spec, Scene d = Some spec ->
      NoDup (SupportedScrapes spec) /\
      ~ In ScrapeTypeName (SupportedScrapes spec) /\
      (In ScrapeTypeURL (SupportedScrapes spec)
       <-> SceneByURL (loaded "mysite.yml") <> []) /\
      (Urls spec <> [] -> In ScrapeTypeURL (SupportedScrapes spec)).
Proof.
  destruct (@loaded_definition_never_panics externals collaborators
              "mysite.yml" (loaded "mysite.yml") eq_refl) as [[d Hd] _].
  destruct (@descriptor_invariants externals (loaded "mysite.yml") d Hd)
    as (Hi & Hn & _ & Hs).
  exists d. split; [exact Hd|]. split; [exact Hi|]. split; [exact Hn | exact Hs].
Defined.

Lemma matches_iff_descriptor_url_occurs_witness :
  exists d : Scraper,
    toScraper (loaded "mysite.yml") = Done d /\
    exists b,
      matchesSceneURL (loaded "mysite.yml") "https://example.com/scene/123" = Done b /\
      (b = true <->
       exists spec u, Scene d = Some spec /\ In u (Urls spec) /\
                      occursIn u "https://example.com/scene/123").
Proof.
  destruct (@loaded_definition_never_panics externals collaborators
              "mysite.yml" (loaded "mysite.yml") eq_refl) as [[d Hd] _].
  exists d. split; [exact Hd|].
  exact (proj2 (@matches_iff_descriptor_url_occurs externals
                  (loaded "mysite.yml") d "https://example.com/scene/123" Hd)).
Defined.

Lemma loaded_id_is_the_stem_witness :
  loadScraperFromYAML "scrapers/names.yml"
  = Done (Some (loaded "scrapers/names.yml"), None) /\
  filepath.Base "scrapers/names.yml" = ("names" ++ "." ++ "yml")%string /\
  strings.Contains "yml" "." = false /\
  ID (loaded "scrapers/names.yml") = "names"%string.
Proof.
  do 3 (split; [reflexivity|]).
  apply (proj1 (@loaded_id_is_the_stem externals collaborators
                  "scrapers/names.yml" (loaded "scrapers/names.yml") eq_refl)
           "names"%string "yml"%string); reflexivity.
Defined.

Lemma loaded_id_has_no_separator_witness :
  loadScraperFromYAML "scrapers/names.yml"
  = Done (Some (loaded "scrapers/names.yml"), None) /\
  strings.Contains (ID (loaded "scrapers/names.yml")) "/" = false.
Proof.
  split; [reflexivity|].
  apply (@loaded_id_has_no_separator externals collaborators
           "scrapers/names.yml" (loaded "scrapers/names.yml")).
  reflexivity.
Defined.
